(** * scqubits/core/namedslots_array.py : named-slot arrays

    A shallow embedding of [idx_for_value], [Parameters], [GIndexObject] and
    [NamedSlotsNdarray], together with the part of Python and NumPy they run
    on: exceptions, ordered dictionaries, list indexing and slicing, binary64
    arithmetic, [ndarray.argmin], [math.isclose], [np.asarray(.., dtype=object)]
    and basic indexing of n-dimensional arrays.

    Python floats are the kernel's binary64 floats, Python ints are [Z], a
    [dict] is an association list in insertion order, and a raised exception
    is the [Raise] branch of [result].  Slot values are real (binary64)
    numbers; a requested value and an index entry may also be a Python
    complex; complex slot values are outside the model. *)

From Stdlib Require Import ZArith List String Bool Lia Floats.
Import ListNotations.

Set Warnings "-inexact-float,-register-all".
Set Implicit Arguments.

(* ================================================================== *)
(** ** Exceptions and the error monad *)

(** The exceptions the module raises or lets through, one constructor per
    raise site or library failure. *)
Inductive exn : Type :=
| ValueError_no_matching_entry  (* idx_for_value: "No matching entry for parameter value ..." *)
| ValueError_empty_argmin       (* numpy: "attempt to get argmin of an empty sequence" *)
| ValueError_broadcast          (* numpy: "could not broadcast input array from shape ..." *)
| ValueError_slice_step_zero    (* "slice step cannot be zero" *)
| ValueError_shape              (* NamedSlotsNdarray.__new__: "... not compatible with provided dict ..." *)
| TypeError_slice_entry         (* std_slice_entry: "Invalid slice entry: ..." *)
| TypeError_step                (* std: "slice.step can only be int or None ..." *)
| TypeError_index               (* std: "Invalid index: ..." *)
| TypeError_mixed               (* "If one index is name-based, all indices must be." *)
| KeyError (key : string)
| IndexError
| TypeError_real_number.        (* math.isclose: "must be real number, not complex" *)

Inductive result (A : Type) : Type :=
| Ok (a : A)
| Raise (e : exn).
Arguments Ok {A} a.
Arguments Raise {A} e.

Definition bind {A B} (r : result A) (k : A -> result B) : result B :=
  match r with
  | Ok a => k a
  | Raise e => Raise e
  end.

Declare Scope py_scope.
Delimit Scope py_scope with py.
Notation "x <- c ;; k" := (bind c (fun x => k))
  (at level 61, c at next level, right associativity) : py_scope.
Notation "' p <- c ;; k" := (bind c (fun p => k))
  (at level 61, p pattern, c at next level, right associativity) : py_scope.
Open Scope py_scope.

(** A comprehension or generator whose body may raise: elements are
    evaluated left to right and the first exception ends the loop. *)
Fixpoint mapM {A B} (f : A -> result B) (l : list A) : result (list B) :=
  match l with
  | [] => Ok []
  | a :: l' => b <- f a ;; bs <- mapM f l' ;; Ok (b :: bs)
  end.

(** [enumerate(l)], counting from [i]. *)
Fixpoint enumerate_from {A} (i : nat) (l : list A) : list (nat * A) :=
  match l with
  | [] => []
  | a :: l' => (i, a) :: enumerate_from (S i) l'
  end.
Definition enumerate {A} (l : list A) := enumerate_from 0 l.

(** A loop [for index, x in enumerate(l): acc = body(acc, index, x)] whose
    body may raise, counting from [i]. *)
Fixpoint for_enumerate {A St} (body : St -> nat -> A -> result St)
         (i : nat) (l : list A) (acc : St) : result St :=
  match l with
  | [] => Ok acc
  | a :: l' => acc' <- body acc i a ;; for_enumerate body (S i) l' acc'
  end.

(* ================================================================== *)
(** ** Python sequences: integer indexing and slicing *)

Section Sequences.
Context {A : Type}.

(** [l[i]] for an int [i]: negative indices count from the end. *)
Definition list_getitem (l : list A) (i : Z) : result A :=
  let n := Z.of_nat (List.length l) in
  let j := if (i <? 0)%Z then (i + n)%Z else i in
  if ((j <? 0) || (n <=? j))%Z then Raise IndexError
  else match nth_error l (Z.to_nat j) with
       | Some a => Ok a
       | None => Raise IndexError
       end.

(** [l[i] = a] for a list and a non-negative [i]. *)
Fixpoint list_setitem (l : list A) (i : nat) (a : A) : result (list A) :=
  match l, i with
  | [], _ => Raise IndexError
  | _ :: l', O => Ok (a :: l')
  | x :: l', S i' => r <- list_setitem l' i' a ;; Ok (x :: r)
  end.

(** [slice(start, stop, step).indices(n)] followed by the slice length,
    as CPython's PySlice_Unpack / PySlice_AdjustIndices compute them. *)
Definition slice_adjust (n : Z) (start stop step : option Z) : result (Z * Z * Z) :=
  let step := match step with Some s => s | None => 1%Z end in
  if (step =? 0)%Z then Raise ValueError_slice_step_zero
  else
    let clip (v : Z) : Z :=
      if (v <? 0)%Z then
        let v' := (v + n)%Z in
        if (v' <? 0)%Z then (if (step <? 0)%Z then (-1)%Z else 0%Z) else v'
      else if (n <=? v)%Z then (if (step <? 0)%Z then (n - 1)%Z else n)
      else v in
    let start := match start with
                 | Some v => clip v
                 | None => if (step <? 0)%Z then (n - 1)%Z else 0%Z
                 end in
    let stop := match stop with
                | Some v => clip v
                | None => if (step <? 0)%Z then (-1)%Z else n
                end in
    let len := if (step <? 0)%Z
               then (if (stop <? start)%Z then ((start - stop - 1) / (- step) + 1)%Z else 0%Z)
               else (if (start <? stop)%Z then ((stop - start - 1) / step + 1)%Z else 0%Z) in
    Ok (start, step, len).

Fixpoint take_stepped (l : list A) (start step : Z) (len : nat) : list A :=
  match len with
  | O => []
  | S len' =>
      match nth_error l (Z.to_nat start) with
      | Some a => a :: take_stepped l (start + step)%Z step len'
      | None => []
      end
  end.

(** [l[start:stop:step]]. *)
Definition list_getslice (l : list A) (start stop step : option Z) : result (list A) :=
  '(s, st, len) <- slice_adjust (Z.of_nat (List.length l)) start stop step ;;
  Ok (take_stepped l s st (Z.to_nat len)).
End Sequences.

(* ================================================================== *)
(** ** Ordered dictionaries *)

(** Keys are compared with a boolean equality that decides Leibniz
    equality; the module uses [str] and [int] keys. *)
Class Key (K : Type) : Type := {
  key_eqb : K -> K -> bool;
  key_eqb_eq : forall a b, key_eqb a b = true <-> a = b
}.

#[export] Instance Key_string : Key string :=
  {| key_eqb := String.eqb; key_eqb_eq := String.eqb_eq |}.
#[export] Instance Key_nat : Key nat :=
  {| key_eqb := Nat.eqb; key_eqb_eq := Nat.eqb_eq |}.

Section Dict.
Context {K : Type} `{Key K} {V : Type}.

(** A dict (or OrderedDict) as its items in insertion order. *)
Definition dict : Type := list (K * V).

Fixpoint dict_get (d : dict) (k : K) : option V :=
  match d with
  | [] => None
  | (k', v) :: d' => if key_eqb k k' then Some v else dict_get d' k
  end.

(** [d[k] = v]: an existing key keeps its place, a new one goes last. *)
Fixpoint dict_set (d : dict) (k : K) (v : V) : dict :=
  match d with
  | [] => [(k, v)]
  | (k', v') :: d' =>
      if key_eqb k k' then (k', v) :: d' else (k', v') :: dict_set d' k v
  end.

(** [for k, v in items: d[k] = v]. *)
Definition assign_all (items : list (K * V)) (d : dict) : dict :=
  fold_left (fun d kv => dict_set d (fst kv) (snd kv)) items d.

(** [dict(items)], [OrderedDict(items)] and dict comprehensions. *)
Definition dict_of_items (items : list (K * V)) : dict := assign_all items [].

Definition dict_keys (d : dict) : list K := map fst d.
Definition dict_values (d : dict) : list V := map snd d.
End Dict.
Arguments dict K V : clear implicits.

(** [d[k]] for a str-keyed dict. *)
Definition dict_getitem {V} (d : dict string V) (k : string) : result V :=
  match dict_get d k with
  | Some v => Ok v
  | None => Raise (KeyError k)
  end.

(* ================================================================== *)
(** ** Binary64 numbers: [ndarray.argmin] and [math.isclose] *)

Open Scope float_scope.

(** The search loop of NumPy's argmin for doubles: [mp] is the running
    minimum, found at [min_ind]; element [i] replaces it when
    [!(ip[i] >= mp)], and a NaN ends the search. *)
Fixpoint argmin_loop (ip : list float) (i : nat) (mp : float) (min_ind : nat) : nat :=
  match ip with
  | [] => min_ind
  | x :: ip' =>
      if negb (mp <=? x)
      then (if is_nan x then i else argmin_loop ip' (S i) x i)
      else argmin_loop ip' (S i) mp min_ind
  end.

(** [a.argmin()] of a one-dimensional array of doubles. *)
Definition argmin (a : list float) : result nat :=
  match a with
  | [] => Raise ValueError_empty_argmin
  | x :: a' => if is_nan x then Ok O else Ok (argmin_loop a' 1 x 0)
  end.

(** [math.isclose(a, b)] with its default [rel_tol=1e-09], [abs_tol=0.0]. *)
Definition rel_tol : float := 1e-09.
Definition abs_tol : float := 0.0.

Definition isclose (a b : float) : bool :=
  if a =? b then true
  else if is_infinity a || is_infinity b then false
  else
    let diff := abs (b - a) in
    (diff <=? abs (rel_tol * b)) || (diff <=? abs (rel_tol * a)) || (diff <=? abs_tol).

(** A requested value, [Number]: a Python float or a Python complex.  (An
    int never reaches a lookup: an int entry is an index.)  A float is read
    as a [Number] where one is expected. *)
Inductive Number : Type :=
| NFloat (x : float)
| NComplex (re im : float).
Coercion NFloat : float >-> Number.

(** The modulus [|re + im j|].  NumPy takes it with the C library's
    [hypot], from which this formula differs by rounding and by overflow of
    the squares; the position found for a complex value is never returned
    (see [as_double]), so nothing below depends on the difference. *)
Definition cabs (re im : float) : float := sqrt (re * re + im * im).

(** [np.abs(param_vals - value)]: for a complex [value] the array is made
    complex first, and element [x] gives [(x - re) + (0 - im) j]. *)
Definition abs_diff (param_vals : list float) (value : Number) : list float :=
  match value with
  | NFloat v => map (fun x => abs (x - v)) param_vals
  | NComplex re im => map (fun x => cabs (x - re) (0 - im)) param_vals
  end.

(** The conversion [math.isclose] applies to an argument: a Python complex
    is no real number and raises TypeError. *)
Definition as_double (value : Number) : result float :=
  match value with
  | NFloat x => Ok x
  | NComplex _ _ => Raise TypeError_real_number
  end.

(** [idx_for_value(value, param_vals)]. *)
Definition idx_for_value (value : Number) (param_vals : list float) : result nat :=
  location <- argmin (abs_diff param_vals value) ;;
  match nth_error param_vals location with
  | Some x =>
      b <- as_double value ;;
      if isclose x b then Ok location
      else Raise ValueError_no_matching_entry
  | None => Raise IndexError
  end.

Close Scope float_scope.

(* ================================================================== *)
(** ** Index types *)

(** [NpSliceEntry = Union[int, None]] is [option Z]. *)

(** [NpIndex]: an int or a slice with int-or-None components.  [NpNone]
    is the bare [None] the name-based branch of [GIndexObject.std] returns
    when both bounds are absent; NumPy reads it as [np.newaxis]. *)
Inductive NpIndex : Type :=
| NpInt (i : Z)
| NpSlice (start stop step : option Z)
| NpNone.

Definition NpIndexTuple : Type := list NpIndex.

(** [GSliceEntry]: what may stand in a component of an extended slice. *)
Inductive GSliceEntry : Type :=
| SNone
| SInt (i : Z)
| SFloat (x : float)
| SStr (s : string)
| SComplex (re im : float).

(** [GIndex]: one entry of an extended multi-index.  [GStr] stands for
    the entries that are neither int, float, complex nor slice. *)
Inductive GIndex : Type :=
| GInt (i : Z)
| GFloat (x : float)
| GSlice (start stop step : GSliceEntry)
| GStr (s : string)
| GComplex (re im : float).

(** [GIndices]: a single entry or a tuple of entries. *)
Inductive GIndices : Type :=
| Bare (entry : GIndex)
| Tuple (entries : list GIndex).

(** The type tags of [GIndexObject]: "int", "val", "slice.name", "slice". *)
Inductive gtype : Type := T_int | T_val | T_slice_name | T_slice.

Definition gtype_eqb (a b : gtype) : bool :=
  match a, b with
  | T_int, T_int | T_val, T_val | T_slice_name, T_slice_name | T_slice, T_slice => true
  | _, _ => false
  end.

(* ================================================================== *)
(** ** [is_std_slice] and [npindices] *)

(** The truth value of a slice component in [if slice_obj.start and ...]:
    [None], zero (of either sign, real or complex) and the empty string are
    false. *)
Definition truthy (s : GSliceEntry) : bool :=
  match s with
  | SNone => false
  | SInt i => negb (i =? 0)%Z
  | SFloat x => negb (x =? 0)%float
  | SStr s => negb (String.eqb s "")
  | SComplex re im => negb ((re =? 0)%float && (im =? 0)%float)
  end.

(** [isinstance(s, int)]. *)
Definition is_int (s : GSliceEntry) : bool :=
  match s with
  | SInt _ => true
  | _ => false
  end.

(** [is_std_slice(slice(start, stop, step))]. *)
Definition is_std_slice (start stop step : GSliceEntry) : bool :=
  if truthy start && negb (is_int start) then false
  else if truthy stop && negb (is_int stop) then false
  else if truthy step && negb (is_int step) then false
  else true.

(** What [npindices] is applied to: an index entry, or a tuple whose
    members are entries or tuples again. *)
Inductive GMultiIndex : Type :=
| Single (index : GIndex)
| Nested (members : list GMultiIndex).

(** [npindices(multi_index)]. *)
Fixpoint npindices (multi_index : GMultiIndex) : bool :=
  match multi_index with
  | Single (GInt _) => true
  | Single (GSlice start stop step) => is_std_slice start stop step
  | Nested members => forallb npindices members
  | Single _ => false
  end.

(* ================================================================== *)
(** ** class Parameters *)

Module Parameters.

Record t : Type := mk {
  paramnames_list : list string;                 (* also [names] *)
  paramvals_by_name : dict string (list float);  (* also [ordered_dict] *)
  index_by_name : dict string nat;
  name_by_index : dict nat string;
  paramvals_by_index : dict nat (list float)
}.

(** [Parameters(paramvals_by_name, paramnames_list=None)]. *)
Definition __init__ (paramvals_by_name : dict string (list float))
           (paramnames_list : option (list string)) : result t :=
  let paramnames_list :=
    match paramnames_list with
    | Some l => l
    | None => dict_keys paramvals_by_name
    end in
  items <- mapM (fun name => v <- dict_getitem paramvals_by_name name ;; Ok (name, v))
                paramnames_list ;;
  let ordered_dict := dict_of_items items in
  let index_by_name :=
    dict_of_items (map (fun ix => (snd ix, fst ix)) (enumerate paramnames_list)) in
  let name_by_index := dict_of_items (enumerate paramnames_list) in
  by_index <- mapM (fun nv => i <- dict_getitem index_by_name (fst nv) ;; Ok (i, snd nv))
                   ordered_dict ;;
  Ok {| paramnames_list := paramnames_list;
        paramvals_by_name := ordered_dict;
        index_by_name := index_by_name;
        name_by_index := name_by_index;
        paramvals_by_index := dict_of_items by_index |}.

(** [self[key]] for a str key. *)
Definition getitem_str (self : t) (key : string) : result (list float) :=
  dict_getitem (paramvals_by_name self) key.

(** [self[key]] for an int key. *)
Definition getitem_int (self : t) (key : Z) : result (list float) :=
  name <- list_getitem (paramnames_list self) key ;;
  dict_getitem (paramvals_by_name self) name.

Definition __len__ (self : t) : nat := List.length (paramnames_list self).

Definition paramvals_list (self : t) : result (list (list float)) :=
  mapM (dict_getitem (paramvals_by_name self)) (paramnames_list self).

(** [create_reduced(fixed_parametername_list, fixed_values=None)].  A
    supplied [fixed_values] is a list of value sequences. *)
Definition create_reduced (self : t) (fixed_parametername_list : list string)
           (fixed_values : option (list (list float))) : result t :=
  fixed_values <-
    match fixed_values with
    | Some values => Ok values
    | None =>
        mapM (fun name => vals <- getitem_str self name ;;
                          x <- list_getitem vals 0 ;;
                          Ok [x])
             fixed_parametername_list
    end ;;
  items <- mapM (fun name => v <- getitem_str self name ;; Ok (name, v))
                (paramnames_list self) ;;
  reduced_paramvals_by_name <-
    for_enumerate (fun d index name =>
                     v <- list_getitem fixed_values (Z.of_nat index) ;;
                     Ok (dict_set d name v))
                  0 fixed_parametername_list (dict_of_items items) ;;
  __init__ reduced_paramvals_by_name None.

(** What [a[np_index]] is for a one-dimensional array [a]: a scalar, a
    one-dimensional array, or (for [None]) the array as the single row
    of a two-dimensional one. *)
Inductive cell : Type :=
| CScalar (x : float)
| CArray (vals : list float)
| CRow (vals : list float).

Definition getitem_1d (vals : list float) (np_index : NpIndex) : result cell :=
  match np_index with
  | NpInt i => x <- list_getitem vals i ;; Ok (CScalar x)
  | NpSlice start stop step => l <- list_getslice vals start stop step ;; Ok (CArray l)
  | NpNone => Ok (CRow vals)
  end.

(** [np.asarray(paramvals_list, dtype=object)].  NumPy builds an array of
    the largest common depth: when the value arrays all have the same
    length [L] the result is a two-dimensional [n x L] array of objects
    ([Matrix]); only when the lengths differ (or for an empty list) is it
    a one-dimensional array whose elements are the value arrays
    ([Ragged]). *)
Inductive object_array : Type :=
| Ragged (elements : list cell)
| Matrix (rows : list (list float)).

Definition asarray_object (paramvals_list : list (list float)) : object_array :=
  match paramvals_list with
  | [] => Ragged []
  | v :: rest =>
      if forallb (fun w => Nat.eqb (List.length w) (List.length v)) rest
      then Matrix paramvals_list
      else Ragged (map CArray paramvals_list)
  end.

(** [row[...] = value] for a row of a [Matrix]: the value is broadcast to
    the row's shape [(L,)]. *)
Definition broadcast_to_row (L : nat) (value : cell) : result (list float) :=
  match value with
  | CScalar x => Ok (repeat x L)
  | CArray [x] => Ok (repeat x L)
  | CArray l => if Nat.eqb (List.length l) L then Ok l else Raise ValueError_broadcast
  | CRow l => if Nat.eqb (List.length l) L then Ok l else Raise ValueError_broadcast
  end.

(** [parameter_array[index] = parameter_array[index][np_index]]. *)
Definition slice_in_place (parameter_array : object_array) (index : nat)
           (np_index : NpIndex) : result object_array :=
  match parameter_array with
  | Ragged elements =>
      match nth_error elements index with
      | Some (CArray vals) =>
          c <- getitem_1d vals np_index ;;
          elements' <- list_setitem elements index c ;;
          Ok (Ragged elements')
      | Some _ => Raise IndexError   (* not reached: each element is sliced once *)
      | None => Raise IndexError
      end
  | Matrix rows =>
      match nth_error rows index with
      | Some row =>
          c <- getitem_1d row np_index ;;
          row' <- broadcast_to_row (List.length row) c ;;
          rows' <- list_setitem rows index row' ;;
          Ok (Matrix rows')
      | None => Raise IndexError
      end
  end.

(** [paramvals = parameter_array[index]] with the test
    [isinstance(paramvals, ndarray) and len(paramvals) > 1]: the array to
    keep, if any. *)
Definition kept (parameter_array : object_array) (index : nat)
  : result (option (list float)) :=
  match parameter_array with
  | Ragged elements =>
      match nth_error elements index with
      | Some (CArray vals) => Ok (if Nat.ltb 1 (List.length vals) then Some vals else None)
      | Some (CScalar _) => Ok None
      | Some (CRow _) => Ok None      (* shape (1, L): len is 1 *)
      | None => Raise IndexError
      end
  | Matrix rows =>
      match nth_error rows index with
      | Some row => Ok (if Nat.ltb 1 (List.length row) then Some row else None)
      | None => Raise IndexError
      end
  end.

(** [create_sliced(np_indices)]. *)
Definition create_sliced (self : t) (np_indices : NpIndexTuple) : result t :=
  vals <- paramvals_list self ;;
  parameter_array <-
    for_enumerate (fun arr index np_index => slice_in_place arr index np_index)
                  0 np_indices (asarray_object vals) ;;
  reduced_paramvals_by_name <-
    for_enumerate (fun d index name =>
                     k <- kept parameter_array index ;;
                     match k with
                     | Some paramvals => Ok (dict_set d name paramvals)
                     | None => Ok d
                     end)
                  0 (paramnames_list self) [] ;;
  __init__ reduced_paramvals_by_name None.

(** [self[key]] for a slice key: the value sets of the sliced name list. *)
Definition getitem_slice (self : t) (start stop step : option Z)
  : result (list (list float)) :=
  sliced_paramnames_list <- list_getslice (paramnames_list self) start stop step ;;
  mapM (dict_getitem (paramvals_by_name self)) sliced_paramnames_list.

(** [self[key]] for a tuple key: slot by slot, the value set indexed with
    the tuple's entry for that slot. *)
Definition getitem_tuple (self : t) (key : NpIndexTuple) : result (list cell) :=
  mapM (fun index =>
          name <- list_getitem (paramnames_list self) (Z.of_nat index) ;;
          vals <- dict_getitem (paramvals_by_name self) name ;;
          np_index <- list_getitem key (Z.of_nat index) ;;
          getitem_1d vals np_index)
       (seq 0 (__len__ self)).

(** The property [counts_by_name]. *)
Definition counts_by_name (self : t) : result (dict string nat) :=
  items <- mapM (fun name => vals <- dict_getitem (paramvals_by_name self) name ;;
                             Ok (name, List.length vals))
                (dict_keys (paramvals_by_name self)) ;;
  Ok (dict_of_items items).

(** The property [counts]: the lengths of the value sets, in slot order. *)
Definition counts (self : t) : result (list nat) :=
  vals <- paramvals_list self ;;
  Ok (map (fun paramvals => List.length paramvals) vals).

(** The property [ranges]: [range(count)] per slot. *)
Definition ranges (self : t) : result (list (list nat)) :=
  cs <- counts self ;;
  Ok (map (fun count => seq 0 count) cs).

(** [get_index(value, slotindex)] for a float [value] and an int
    [slotindex]. *)
Definition get_index (self : t) (value : float) (slotindex : Z) : result nat :=
  vals <- getitem_int self slotindex ;;
  argmin (abs_diff vals value).

End Parameters.

(* ================================================================== *)
(** ** class GIndexObject *)

Module GIndexObject.

Record t : Type := mk {
  entry : GIndex;
  parameters : Parameters.t;
  slot : nat;
  name : option string;
  type : gtype;
  std_index : NpIndex
}.

(** [std_slice_entry(slice_entry)], with [self.parameters] and
    [self.slot] as arguments. *)
Definition std_slice_entry (parameters : Parameters.t) (slot : nat)
           (slice_entry : GSliceEntry) : result (option Z) :=
  match slice_entry with
  | SFloat x =>
      vals <- Parameters.getitem_int parameters (Z.of_nat slot) ;;
      location <- idx_for_value x vals ;;
      Ok (Some (Z.of_nat location))
  | SComplex re im =>
      vals <- Parameters.getitem_int parameters (Z.of_nat slot) ;;
      location <- idx_for_value (NComplex re im) vals ;;
      Ok (Some (Z.of_nat location))
  | SInt i => Ok (Some i)
  | SNone => Ok None
  | SStr _ => Raise TypeError_slice_entry
  end.

(** [std(entry)]: the name it stores in [self.name] (if any), the type
    tag and the standard index. *)
Definition std (parameters : Parameters.t) (slot : nat) (entry : GIndex)
  : result (option string * gtype * NpIndex) :=
  match entry with
  | GInt i => Ok (None, T_int, NpInt i)
  | GFloat x =>
      vals <- Parameters.getitem_int parameters (Z.of_nat slot) ;;
      location <- idx_for_value x vals ;;
      Ok (None, T_val, NpInt (Z.of_nat location))
  | GComplex re im =>
      vals <- Parameters.getitem_int parameters (Z.of_nat slot) ;;
      location <- idx_for_value (NComplex re im) vals ;;
      Ok (None, T_val, NpInt (Z.of_nat location))
  | GSlice (SStr name) entry_stop entry_step =>
      start <- std_slice_entry parameters slot entry_stop ;;
      stop <- std_slice_entry parameters slot entry_step ;;
      match stop with
      | None =>
          Ok (Some name, T_slice_name,
              match start with Some i => NpInt i | None => NpNone end)
      | Some _ => Ok (Some name, T_slice_name, NpSlice start stop None)
      end
  | GSlice entry_start entry_stop entry_step =>
      start <- std_slice_entry parameters slot entry_start ;;
      stop <- std_slice_entry parameters slot entry_stop ;;
      step <- match entry_step with
              | SNone | SInt _ => std_slice_entry parameters slot entry_step
              | _ => Raise TypeError_step
              end ;;
      Ok (None, T_slice, NpSlice start stop step)
  | GStr _ => Raise TypeError_index
  end.

(** [GIndexObject(entry, parameters, slot=slot)]. *)
Definition __init__ (entry : GIndex) (parameters : Parameters.t) (slot : nat)
  : result t :=
  '(name, type, std_index) <- std parameters slot entry ;;
  Ok {| entry := entry; parameters := parameters; slot := slot;
        name := name; type := type; std_index := std_index |}.

End GIndexObject.

(* ================================================================== *)
(** ** Dense arrays *)

(** An n-dimensional array of doubles: [Item] is a scalar (or an
    element), [Arr] an array along the leading axis, given by its
    sub-arrays.  An array whose leading axis has length zero has no
    sub-array to show its other axes: [Arr []] is the array of shape [(0,)],
    and [Empty d inner] the one of shape [(0, d, inner...)]. *)
Inductive ndarray : Type :=
| Item (x : float)
| Arr (elements : list ndarray)
| Empty (d : nat) (inner : list nat).

Fixpoint shape (a : ndarray) : list nat :=
  match a with
  | Item _ => []
  | Arr l => List.length l :: match l with
                              | [] => []
                              | x :: _ => shape x
                              end
  | Empty d inner => 0%nat :: d :: inner
  end.

(** The array of shape [0 :: s]. *)
Definition empty_array (s : list nat) : ndarray :=
  match s with
  | [] => Arr []
  | d :: inner => Empty d inner
  end.

(** The shape of [a[np_indices]] for an array of shape [s], with the
    checks NumPy makes index by index, from the left: an int must be within
    its axis, a slice must not have step zero. *)
Fixpoint index_shape (np_indices : NpIndexTuple) (s : list nat) : result (list nat) :=
  match np_indices with
  | [] => Ok s
  | NpNone :: rest => r <- index_shape rest s ;; Ok (1%nat :: r)
  | NpInt i :: rest =>
      match s with
      | [] => Raise IndexError
      | n :: s' => _ <- list_getitem (seq 0 n) i ;; index_shape rest s'
      end
  | NpSlice start stop step :: rest =>
      match s with
      | [] => Raise IndexError
      | n :: s' =>
          '(_, _, len) <- slice_adjust (Z.of_nat n) start stop step ;;
          r <- index_shape rest s' ;;
          Ok (Z.to_nat len :: r)
      end
  end.

(** The selection itself: an int selects along an axis and removes it, a
    slice keeps it, [None] inserts an axis of length one, and axes the
    tuple does not reach are kept whole.  Where a slice selects nothing,
    the remaining indices are still checked against the remaining axes. *)
Fixpoint select (np_indices : NpIndexTuple) (a : ndarray) : result ndarray :=
  match np_indices with
  | [] => Ok a
  | NpNone :: rest => r <- select rest a ;; Ok (Arr [r])
  | NpInt i :: rest =>
      match a with
      | Arr l => x <- list_getitem l i ;; select rest x
      | _ => Raise IndexError
      end
  | NpSlice start stop step :: rest =>
      match a with
      | Item _ => Raise IndexError
      | Arr l =>
          l' <- list_getslice l start stop step ;;
          match l' with
          | [] => r <- index_shape rest (tl (shape a)) ;; Ok (empty_array r)
          | _ :: _ => rs <- mapM (select rest) l' ;; Ok (Arr rs)
          end
      | Empty d inner =>
          _ <- slice_adjust 0 start stop step ;;
          r <- index_shape rest (d :: inner) ;;
          Ok (empty_array r)
      end
  end.

(** The number of axes a tuple of basic indices addresses: [None] takes
    none. *)
Definition used_ndim (np_indices : NpIndexTuple) : nat :=
  List.length (filter (fun ix => match ix with NpNone => false | _ => true end) np_indices).

(** [a[np_indices]] for a tuple of basic indices.  NumPy first counts the
    indices ("too many indices for array") and then goes through them. *)
Definition nd_getitem (np_indices : NpIndexTuple) (a : ndarray) : result ndarray :=
  if Nat.ltb (List.length (shape a)) (used_ndim np_indices) then Raise IndexError
  else select np_indices a.

(** The nested-sequence form [a.tolist()] (an array without elements is
    the empty list, whatever its other axes are) and its way back,
    [np.asarray(nested, dtype=object)]. *)
Inductive pyobject : Type :=
| PyFloat (x : float)
| PyList (items : list pyobject).

Fixpoint tolist (a : ndarray) : pyobject :=
  match a with
  | Item x => PyFloat x
  | Arr l => PyList (map tolist l)
  | Empty _ _ => PyList []
  end.

Fixpoint asarray (o : pyobject) : ndarray :=
  match o with
  | PyFloat x => Item x
  | PyList l => Arr (map asarray l)
  end.

(* ================================================================== *)
(** ** class NamedSlotsNdarray *)

Module NamedSlotsNdarray.

(** The array with its [parameters] attribute.  ([data_callback] is
    [None] on every instance the module creates and is left out.) *)
Record t : Type := mk {
  data : ndarray;
  parameters : Parameters.t
}.

(** What indexing returns: an element, or an array that is again a
    [NamedSlotsNdarray]. *)
Inductive value : Type :=
| Scalar (x : float)
| Array (a : t).

Definition shape_eqb (s1 s2 : list nat) : bool :=
  if list_eq_dec Nat.eq_dec s1 s2 then true else false.

(** [NamedSlotsNdarray(input_array, values_by_name)]. *)
Definition __new__ (input_array : ndarray) (values_by_name : dict string (list float))
  : result t :=
  let implied_shape := map (fun nv => List.length (snd nv)) values_by_name in
  if negb (shape_eqb (firstn (List.length values_by_name) (shape input_array))
                     implied_shape)
  then Raise ValueError_shape
  else
    p <- Parameters.__init__ values_by_name None ;;
    Ok {| data := input_array; parameters := p |}.

(** [__array_finalize__]: a view [obj] taken from [self] by the base
    class gets [self]'s attributes; an element is returned as it is. *)
Definition __array_finalize__ (self : t) (obj : ndarray) : value :=
  match obj with
  | Item x => Scalar x
  | _ => Array {| data := obj; parameters := parameters self |}
  end.

Definition slot_count (self : t) : nat :=
  List.length (Parameters.paramvals_by_name (parameters self)).

Definition _name_based_to_std_index_tuple (self : t) (multi_index : list GIndexObject.t)
  : result NpIndexTuple :=
  for_enumerate
    (fun converted_multi_index _ gidx_object =>
       if negb (gtype_eqb (GIndexObject.type gidx_object) T_slice_name)
       then Raise TypeError_mixed
       else
         slot_index <-
           match GIndexObject.name gidx_object with
           | Some name => dict_getitem (Parameters.index_by_name (parameters self)) name
           | None => Raise TypeError_index
           end ;;
         list_setitem converted_multi_index slot_index (GIndexObject.std_index gidx_object))
    0 multi_index
    (repeat (NpSlice None None None) (slot_count self)).

Definition _to_std_index_tuple (self : t) (multi_index : list GIndexObject.t)
  : result NpIndexTuple :=
  match multi_index with
  | [] => Raise IndexError
  | first_gidx :: _ =>
      if gtype_eqb (GIndexObject.type first_gidx) T_slice_name
      then _name_based_to_std_index_tuple self multi_index
      else Ok (map GIndexObject.std_index multi_index)
  end.

(** [self[multi_index]]. *)
Definition __getitem__ (self : t) (multi_index : GIndices) : result value :=
  match multi_index with
  | Bare (GInt i) =>
      obj <- nd_getitem [NpInt i] (data self) ;;
      Ok (__array_finalize__ self obj)
  | _ =>
      let multi_index :=
        match multi_index with
        | Tuple entries => entries
        | Bare entry => [entry]
        end in
      gidx_obj_tuple <-
        mapM (fun se => GIndexObject.__init__ (snd se) (parameters self) (fst se))
             (enumerate multi_index) ;;
      np_indices <- _to_std_index_tuple self gidx_obj_tuple ;;
      obj <- nd_getitem np_indices (data self) ;;
      match obj with
      | Item x => Ok (Scalar x)
      | _ =>
          p <- Parameters.create_sliced (parameters self) np_indices ;;
          Ok (Array {| data := obj; parameters := p |})
      end
  end.

(** [IOData.objects] as [serialize] fills it and [deserialize] reads it. *)
Record IOData : Type := mkIOData {
  typename : string;
  objects_input_array : pyobject;
  objects_values_by_name : dict string (list float)
}.

Definition serialize (self : t) : IOData :=
  {| typename := "NamedSlotsNdarray";
     objects_input_array := tolist (data self);
     objects_values_by_name := Parameters.paramvals_by_name (parameters self) |}.

Definition deserialize (io_data : IOData) : result t :=
  let input_array := asarray (objects_input_array io_data) in
  let values_by_name := objects_values_by_name io_data in
  __new__ input_array values_by_name.

End NamedSlotsNdarray.

(* ================================================================== *)
(** ** The value sets of the class docstring *)

Open Scope float_scope.
Open Scope string_scope.

(** ['param1': np.asarray([-4.4, -0.1, 0.3, 10.0])]. *)
Definition param1_vals : list float := [-4.4; -0.1; 0.3; 10.0].

(** [{'ng': np.asarray([-0.1, 0.0, 0.1, 0.2]),
      'flux': np.asarray([-1.0, -0.5, 0.0, 0.5, 1.0])}]. *)
Definition ng_vals : list float := [-0.1; 0.0; 0.1; 0.2].
Definition flux_vals : list float := [-1.0; -0.5; 0.0; 0.5; 1.0].
Definition ng_flux : dict string (list float) := [("ng", ng_vals); ("flux", flux_vals)].

(** A 4 x 5 array for the slots [ng] and [flux]: element [(i, j)] is
    [10 i + j]. *)
Definition some_array : ndarray :=
  Arr [Arr [Item 0; Item 1; Item 2; Item 3; Item 4];
       Arr [Item 10; Item 11; Item 12; Item 13; Item 14];
       Arr [Item 20; Item 21; Item 22; Item 23; Item 24];
       Arr [Item 30; Item 31; Item 32; Item 33; Item 34]].

(** A 2 x 2 array whose two slots have value sets of one length. *)
Definition square_array : ndarray := Arr [Arr [Item 0; Item 1]; Arr [Item 10; Item 11]].
Definition ab_vals : dict string (list float) := [("a", [1.0; 2.0]); ("b", [3.0; 4.0])].

(** A one-dimensional array with its single slot. *)
Definition line_array : ndarray := Arr [Item 1; Item 2; Item 3].
Definition line_vals : dict string (list float) := [("a", [0.1; 0.2; 0.3])].

(** [Parameters(ab_vals)] and [NamedSlotsNdarray(square_array, ab_vals)]. *)
Definition ab_parameters : Parameters.t :=
  {| Parameters.paramnames_list := ["a"; "b"];
     Parameters.paramvals_by_name := ab_vals;
     Parameters.index_by_name := [("a", 0%nat); ("b", 1%nat)];
     Parameters.name_by_index := [(0%nat, "a"); (1%nat, "b")];
     Parameters.paramvals_by_index := [(0%nat, [1.0; 2.0]); (1%nat, [3.0; 4.0])] |}.

(** [ab_parameters.create_reduced(['a'])]. *)
Definition ab_reduced : Parameters.t :=
  {| Parameters.paramnames_list := ["a"; "b"];
     Parameters.paramvals_by_name := [("a", [1.0]); ("b", [3.0; 4.0])];
     Parameters.index_by_name := [("a", 0%nat); ("b", 1%nat)];
     Parameters.name_by_index := [(0%nat, "a"); (1%nat, "b")];
     Parameters.paramvals_by_index := [(0%nat, [1.0]); (1%nat, [3.0; 4.0])] |}.

(** [ab_parameters.create_sliced((0,))]. *)
Definition ab_sliced : Parameters.t :=
  {| Parameters.paramnames_list := ["a"; "b"];
     Parameters.paramvals_by_name := [("a", [1.0; 1.0]); ("b", [3.0; 4.0])];
     Parameters.index_by_name := [("a", 0%nat); ("b", 1%nat)];
     Parameters.name_by_index := [(0%nat, "a"); (1%nat, "b")];
     Parameters.paramvals_by_index := [(0%nat, [1.0; 1.0]); (1%nat, [3.0; 4.0])] |}.

Definition square_labeled : NamedSlotsNdarray.t :=
  {| NamedSlotsNdarray.data := square_array;
     NamedSlotsNdarray.parameters := ab_parameters |}.

(** A 3 x 2 array with one slot: its second dimension has no name. *)
Definition tall_array : ndarray :=
  Arr [Arr [Item 0; Item 1]; Arr [Item 10; Item 11]; Arr [Item 20; Item 21]].

(** [Parameters(ng_flux)] and [NamedSlotsNdarray(some_array, ng_flux)]. *)
Definition ng_flux_parameters : Parameters.t :=
  {| Parameters.paramnames_list := ["ng"; "flux"];
     Parameters.paramvals_by_name := ng_flux;
     Parameters.index_by_name := [("ng", 0%nat); ("flux", 1%nat)];
     Parameters.name_by_index := [(0%nat, "ng"); (1%nat, "flux")];
     Parameters.paramvals_by_index := [(0%nat, ng_vals); (1%nat, flux_vals)] |}.

Definition some_labeled : NamedSlotsNdarray.t :=
  {| NamedSlotsNdarray.data := some_array;
     NamedSlotsNdarray.parameters := ng_flux_parameters |}.

(** The classified entries of the docstring's [some_array['flux'::2, 'ng':-1]]. *)
Definition flux_then_ng : list GIndexObject.t :=
  [GIndexObject.mk (GSlice (SStr "flux") SNone (SInt 2)) ng_flux_parameters 0
                   (Some "flux") T_slice_name (NpSlice None (Some 2%Z) None);
   GIndexObject.mk (GSlice (SStr "ng") (SInt (-1)) SNone) ng_flux_parameters 1
                   (Some "ng") T_slice_name (NpInt (-1))].

(** [NamedSlotsNdarray(input_array, values_by_name)[multi_index]]. *)
Definition new_getitem (input_array : ndarray) (values_by_name : dict string (list float))
           (multi_index : GIndices) : result NamedSlotsNdarray.value :=
  self <- NamedSlotsNdarray.__new__ input_array values_by_name ;;
  NamedSlotsNdarray.__getitem__ self multi_index.

Close Scope string_scope.
Close Scope float_scope.

(* ================================================================== *)
(** ** Vocabulary of the statements *)

(** Comparison of the magnitudes of two finite binary64 numbers of one
    sign, from mantissa and exponent. *)
Definition mag_cmp (m1 : positive) (e1 : Z) (m2 : positive) (e2 : Z) : comparison :=
  match Z.compare e1 e2 with
  | Lt => Lt
  | Gt => Gt
  | Eq => Pos.compare_cont Eq m1 m2
  end.

(** No distance is NaN. *)
Definition no_nan (d : list float) : Prop :=
  forall j y, nth_error d j = Some y -> is_nan y = false.

(** [loc] is the first position of a least element of [d]. *)
Definition first_minimum (d : list float) (loc : nat) : Prop :=
  no_nan d /\
  exists m, nth_error d loc = Some m /\
    (forall j y, nth_error d j = Some y -> (m <=? y)%float = true) /\
    (forall j y, (j < loc)%nat -> nth_error d j = Some y -> (y <=? m)%float = false).

(** [loc] is the first position of a NaN of [d]. *)
Definition first_nan (d : list float) (loc : nat) : Prop :=
  exists m, nth_error d loc = Some m /\ is_nan m = true /\
    forall j y, (j < loc)%nat -> nth_error d j = Some y -> is_nan y = false.

(** The position of the element of [param_vals] closest to [value]: the
    first one at the least distance [|x - value|]; a distance that is NaN
    (infinite or NaN operands) counts as least, as NumPy has it. *)
Definition closest_position (param_vals : list float) (value : float) (loc : nat) : Prop :=
  first_minimum (abs_diff param_vals value) loc \/
  first_nan (abs_diff param_vals value) loc.

(** [np.asarray([self[name][0]])], the value [create_reduced] fixes a slot to. *)
Definition first_value (self : Parameters.t) (name : string) : result (list float) :=
  vals <- Parameters.getitem_str self name ;;
  x <- list_getitem vals 0 ;;
  Ok [x].

(** An entry is name-based when it is a slice whose start is a string. *)
Definition name_based (e : GIndex) : bool :=
  match e with
  | GSlice (SStr _) _ _ => true
  | _ => false
  end.

(** The computation does not end in the mixed-mode TypeError. *)
Definition never_mixed {A} (r : result A) : Prop := r <> Raise TypeError_mixed.

(** A multi-index of plain integers and standard slices, and the tuple
    the dense array is indexed with directly. *)
Definition plain_entry (s : GSliceEntry) : bool :=
  match s with
  | SNone | SInt _ => true
  | _ => false
  end.

Definition plain_index (e : GIndex) : bool :=
  match e with
  | GInt _ => true
  | GSlice start stop step => plain_entry start && plain_entry stop && plain_entry step
  | _ => false
  end.

Definition np_entry (s : GSliceEntry) : option Z :=
  match s with
  | SInt i => Some i
  | _ => None
  end.

Definition np_index (e : GIndex) : NpIndex :=
  match e with
  | GInt i => NpInt i
  | GSlice start stop step => NpSlice (np_entry start) (np_entry stop) (np_entry step)
  | _ => NpNone
  end.

(** The data of what indexing returned. *)
Definition value_data (v : NamedSlotsNdarray.value) : ndarray :=
  match v with
  | NamedSlotsNdarray.Scalar x => Item x
  | NamedSlotsNdarray.Array a => NamedSlotsNdarray.data a
  end.

(** Every axis of length zero is the last axis, so that the nested-list
    form of the array shows all its axes. *)
Fixpoint zero_axes_last (a : ndarray) : bool :=
  match a with
  | Item _ => true
  | Arr l => forallb zero_axes_last l
  | Empty _ _ => false
  end.


(** A slice component [is_std_slice] lets through: [None], an int, a
    zero float, a zero complex or the empty string. *)
Definition std_component (s : GSliceEntry) : Prop :=
  match s with
  | SNone | SInt _ => True
  | SFloat x => (x =? 0)%float = true
  | SStr t => t = EmptyString
  | SComplex re im => (re =? 0)%float = true /\ (im =? 0)%float = true
  end.

(** What [npindices] lets through: an int, a slice of such components,
    and a tuple of what it lets through. *)
Definition std_entry (e : GIndex) : Prop :=
  match e with
  | GInt _ => True
  | GSlice start stop step =>
      std_component start /\ std_component stop /\ std_component step
  | _ => False
  end.

Inductive std_multi_index : GMultiIndex -> Prop :=
| std_single (e : GIndex) : std_entry e -> std_multi_index (Single e)
| std_nested (members : list GMultiIndex) :
    Forall std_multi_index members -> std_multi_index (Nested members).

(** The first listed name that is no key of the mapping. *)
Definition first_missing (d : dict string (list float)) (names : list string)
  : option string :=
  find (fun name => match dict_get d name with Some _ => false | None => true end) names.

(** A slice step that is neither an int nor [None]. *)
Definition non_int_step (step : GSliceEntry) : bool :=
  match step with
  | SFloat _ | SStr _ | SComplex _ _ => true
  | _ => false
  end.

(** The entry [g] names the slot at position [k]. *)
Definition names_slot (index_by_name : dict string nat) (k : nat) (g : GIndexObject.t)
  : bool :=
  match GIndexObject.name g with
  | Some name =>
      match dict_get index_by_name name with
      | Some j => Nat.eqb j k
      | None => false
      end
  | None => false
  end.

(** The index a name-based multi-index gives position [k]: that of the
    last entry naming the slot at [k], or the full slice. *)
Definition named_index (index_by_name : dict string nat)
           (multi_index : list GIndexObject.t) (k : nat) : NpIndex :=
  match find (names_slot index_by_name k) (rev multi_index) with
  | Some g => GIndexObject.std_index g
  | None => NpSlice None None None
  end.

(** Slot by slot, the value set indexed with its entry of the tuple; the
    slots the tuple does not reach keep their value set, and a tuple longer
    than the list of value sets is an IndexError. *)
Fixpoint sliced_cells (vals : list (list float)) (np_indices : NpIndexTuple)
         {struct np_indices} : result (list Parameters.cell) :=
  match np_indices, vals with
  | [], _ => Ok (map Parameters.CArray vals)
  | _ :: _, [] => Raise IndexError
  | np_index :: rest, v :: vals' =>
      c <- Parameters.getitem_1d v np_index ;;
      cs <- sliced_cells vals' rest ;;
      Ok (c :: cs)
  end.

(** The slots whose cell is a one-dimensional array of more than one
    value, with that array, in slot order. *)
Fixpoint kept_items (names : list string) (cells : list Parameters.cell)
         {struct names} : dict string (list float) :=
  match names, cells with
  | name :: names', c :: cells' =>
      match c with
      | Parameters.CArray l =>
          if Nat.ltb 1 (List.length l)
          then (name, l) :: kept_items names' cells'
          else kept_items names' cells'
      | _ => kept_items names' cells'
      end
  | _, _ => []
  end.

(** The value sets do not all have one length (or there is none). *)
Definition ragged (vals : list (list float)) : bool :=
  match vals with
  | [] => true
  | v :: rest => negb (forallb (fun w => Nat.eqb (List.length w) (List.length v)) rest)
  end.

(** The number of elements, or of rows, of an object array. *)
Definition object_array_size (a : Parameters.object_array) : nat :=
  match a with
  | Parameters.Ragged elements => List.length elements
  | Parameters.Matrix rows => List.length rows
  end.

(** The positional entry that stands for a name-based entry with int
    bounds: ['name':i] is [i], ['name':i:j] is [i:j], ['name'::j] is [:j]. *)
Definition positional_form (e : GIndex) : option GIndex :=
  match e with
  | GSlice (SStr _) (SInt i) SNone => Some (GInt i)
  | GSlice (SStr _) SNone (SInt j) => Some (GSlice SNone (SInt j) SNone)
  | GSlice (SStr _) (SInt i) (SInt j) => Some (GSlice (SInt i) (SInt j) SNone)
  | _ => None
  end.

Definition entry_name (e : GIndex) : option string :=
  match e with
  | GSlice (SStr name) _ _ => Some name
  | _ => None
  end.

(** The entry [e] names the slot at position [k]. *)
Definition entry_names_slot (index_by_name : dict string nat) (k : nat) (e : GIndex)
  : bool :=
  match entry_name e with
  | Some name =>
      match dict_get index_by_name name with
      | Some j => Nat.eqb j k
      | None => false
      end
  | None => false
  end.

(** The positional multi-index that addresses the same slots as the
    name-based [entries]: at position [k] the positional form of the last
    entry naming the slot at [k], and [:] where no entry names it. *)
Definition positional_entry (index_by_name : dict string nat) (entries : list GIndex)
           (k : nat) : GIndex :=
  match find (entry_names_slot index_by_name k) (rev entries) with
  | Some e =>
      match positional_form e with
      | Some e' => e'
      | None => GSlice SNone SNone SNone
      end
  | None => GSlice SNone SNone SNone
  end.

Definition positional_tuple (index_by_name : dict string nat) (entries : list GIndex)
           (n : nat) : list GIndex :=
  map (positional_entry index_by_name entries) (seq 0 n).

(* ================================================================== *)
(** * Properties *)

(** ** The order of binary64 numbers *)

Module FloatOrder.

Lemma mag_cmp_spec m1 e1 m2 e2 :
  match mag_cmp m1 e1 m2 e2 with
  | Lt => (e1 < e2)%Z \/ (e1 = e2 /\ (m1 < m2)%positive)
  | Eq => e1 = e2 /\ m1 = m2
  | Gt => (e2 < e1)%Z \/ (e1 = e2 /\ (m2 < m1)%positive)
  end.
Proof.
  unfold mag_cmp. destruct (Z.compare_spec e1 e2); try lia.
  change (Pos.compare_cont Eq m1 m2) with (Pos.compare m1 m2).
  destruct (Pos.compare_spec m1 m2); lia.
Qed.

Lemma SFcompare_finite s1 m1 e1 s2 m2 e2 :
  SFcompare (S754_finite s1 m1 e1) (S754_finite s2 m2 e2) =
  Some match s1, s2 with
       | true, false => Lt
       | false, true => Gt
       | false, false => mag_cmp m1 e1 m2 e2
       | true, true => CompOpp (mag_cmp m1 e1 m2 e2)
       end.
Proof.
  unfold mag_cmp; simpl. destruct s1, s2; try reflexivity.
  now destruct (Z.compare e1 e2).
Qed.

Ltac split_signs :=
  simpl; repeat match goal with s : bool |- _ => destruct s end; simpl; congruence.

Lemma SFleb_trans a b c :
  SFleb a b = true -> SFleb b c = true -> SFleb a c = true.
Proof.
  unfold SFleb.
  destruct a as [sa|sa| |sa ma ea], b as [sb|sb| |sb mb eb], c as [sc|sc| |sc mc ec];
    try split_signs.
  rewrite !SFcompare_finite.
  pose proof (mag_cmp_spec ma ea mb eb).
  pose proof (mag_cmp_spec mb eb mc ec).
  pose proof (mag_cmp_spec ma ea mc ec).
  destruct sa, sb, sc; try congruence;
    destruct (mag_cmp ma ea mb eb), (mag_cmp mb eb mc ec), (mag_cmp ma ea mc ec);
    simpl; try congruence; lia.
Qed.

Lemma SFleb_total a b :
  a <> S754_nan -> b <> S754_nan -> SFleb a b = false -> SFleb b a = true.
Proof.
  unfold SFleb.
  destruct a as [sa|sa| |sa ma ea], b as [sb|sb| |sb mb eb]; try split_signs.
  rewrite !SFcompare_finite.
  pose proof (mag_cmp_spec ma ea mb eb).
  pose proof (mag_cmp_spec mb eb ma ea).
  destruct sa, sb; try congruence;
    destruct (mag_cmp ma ea mb eb), (mag_cmp mb eb ma ea);
    simpl; try congruence; lia.
Qed.

Lemma SFeqb_self a : SFeqb a a = false <-> a = S754_nan.
Proof.
  unfold SFeqb. destruct a as [s|s| |s m e]; simpl.
  - destruct s; split; congruence.
  - destruct s; split; congruence.
  - split; congruence.
  - rewrite Z.compare_refl, Pos.compare_cont_refl. destruct s; simpl; split; congruence.
Qed.

Lemma is_nan_spec x : is_nan x = true <-> Prim2SF x = S754_nan.
Proof.
  unfold is_nan. rewrite eqb_spec, negb_true_iff. apply SFeqb_self.
Qed.

Lemma not_nan_spec x : is_nan x = false <-> Prim2SF x <> S754_nan.
Proof.
  rewrite <- is_nan_spec. destruct (is_nan x); split; congruence.
Qed.

Lemma leb_trans x y z :
  (x <=? y)%float = true -> (y <=? z)%float = true -> (x <=? z)%float = true.
Proof. rewrite !leb_spec. apply SFleb_trans. Qed.

Lemma leb_total x y :
  is_nan x = false -> is_nan y = false ->
  (x <=? y)%float = false -> (y <=? x)%float = true.
Proof. rewrite !not_nan_spec, !leb_spec. apply SFleb_total. Qed.

Lemma leb_refl x : is_nan x = false -> (x <=? x)%float = true.
Proof.
  intros Hx. destruct (x <=? x)%float eqn:E; [reflexivity|].
  pose proof (leb_total Hx Hx E). congruence.
Qed.

Lemma leb_not_nan x y :
  (x <=? y)%float = true -> is_nan x = false /\ is_nan y = false.
Proof.
  rewrite leb_spec, !not_nan_spec. unfold SFleb.
  destruct (Prim2SF x), (Prim2SF y); simpl; intros; split; congruence.
Qed.

End FloatOrder.

(** ** [argmin] finds the closest position *)

Lemma nth_error_snoc {A} (l : list A) (x : A) j y :
  nth_error (l ++ [x]) j = Some y ->
  (nth_error l j = Some y /\ (j < List.length l)%nat) \/ (j = List.length l /\ y = x).
Proof.
  intros Hj. destruct (Nat.lt_ge_cases j (List.length l)) as [Hlt|Hge].
  - left. rewrite nth_error_app1 in Hj by assumption. auto.
  - right. rewrite nth_error_app2 in Hj by assumption.
    destruct (j - List.length l)%nat as [|k] eqn:E; simpl in Hj.
    + split; [lia | congruence].
    + destruct k; discriminate.
Qed.

(** The loop invariant: among the elements [pre] seen so far none is NaN
    and [mp], at [min_ind], is the first least one. *)
Lemma argmin_loop_spec (ip : list float) :
  forall (pre : list float) (i : nat) (mp : float) (min_ind : nat),
    i = List.length pre ->
    nth_error pre min_ind = Some mp ->
    no_nan pre ->
    (forall j y, nth_error pre j = Some y -> (mp <=? y)%float = true) ->
    (forall j y, (j < min_ind)%nat -> nth_error pre j = Some y -> (y <=? mp)%float = false) ->
    let loc := argmin_loop ip i mp min_ind in
    first_minimum (pre ++ ip) loc \/ first_nan (pre ++ ip) loc.
Proof.
  induction ip as [|x ip IH]; intros pre i mp min_ind -> Hmp Hnan Hmin Hfirst; simpl.
  - rewrite app_nil_r. left. split; [assumption|]. exists mp. auto.
  - assert (Hlen : S (List.length pre) = List.length (pre ++ [x]))
      by (rewrite length_app; simpl; lia).
    assert (Hmp_nan : is_nan mp = false) by (eapply Hnan; eassumption).
    replace (pre ++ x :: ip) with ((pre ++ [x]) ++ ip)
      by (rewrite <- app_assoc; reflexivity).
    destruct (mp <=? x)%float eqn:Hle; simpl.
    + (* x is no smaller: the minimum stays *)
      destruct (FloatOrder.leb_not_nan Hle) as [_ Hx].
      apply IH; [assumption| | | |].
      * rewrite nth_error_app1; [assumption|]. apply nth_error_Some. congruence.
      * intros j y Hj. apply nth_error_snoc in Hj as [[Hj _]|[_ ->]]; eauto.
      * intros j y Hj. apply nth_error_snoc in Hj as [[Hj _]|[_ ->]]; eauto.
      * intros j y Hlt Hj. apply nth_error_snoc in Hj as [[Hj _]|[-> ->]]; eauto.
        assert (min_ind < List.length pre)%nat by (apply nth_error_Some; congruence).
        lia.
    + destruct (is_nan x) eqn:Hx.
      * (* a NaN ends the search *)
        right. exists x. repeat split.
        -- rewrite <- app_assoc. simpl. rewrite nth_error_app2 by lia.
           now rewrite Nat.sub_diag.
        -- assumption.
        -- intros j y Hlt Hj. rewrite <- app_assoc in Hj.
           rewrite nth_error_app1 in Hj by assumption. eauto.
      * (* x is the new minimum *)
        assert (Hxm : (x <=? mp)%float = true) by now apply FloatOrder.leb_total.
        apply IH; [assumption| | | |].
        -- rewrite nth_error_app2 by lia. now rewrite Nat.sub_diag.
        -- intros j y Hj. apply nth_error_snoc in Hj as [[Hj _]|[_ ->]]; eauto.
        -- intros j y Hj. apply nth_error_snoc in Hj as [[Hj _]|[_ ->]].
           ++ eapply FloatOrder.leb_trans; eauto.
           ++ now apply FloatOrder.leb_refl.
        -- intros j y Hlt Hj. apply nth_error_snoc in Hj as [[Hj _]|[-> _]]; [|lia].
           destruct (y <=? x)%float eqn:Hyx; [|reflexivity].
           assert ((mp <=? x)%float = true)
             by (eapply FloatOrder.leb_trans; [eapply Hmin|]; eassumption).
           congruence.
Qed.

Lemma argmin_closest (d : list float) (loc : nat) :
  argmin d = Ok loc -> first_minimum d loc \/ first_nan d loc.
Proof.
  destruct d as [|x d]; simpl; [discriminate|].
  destruct (is_nan x) eqn:Hx; intros [= <-].
  - right. exists x. repeat split; auto. intros j y Hj. lia.
  - change (x :: d) with ([x] ++ d).
    apply (@argmin_loop_spec d [x] 1 x 0).
    + reflexivity.
    + reflexivity.
    + intros [|[|j]] y; simpl; congruence.
    + intros [|[|j]] y; simpl; try congruence.
      intros [= <-]. now apply FloatOrder.leb_refl.
    + intros j y Hj. lia.
Qed.

(** The closest position is unique. *)
Lemma first_position_unique (d : list float) (loc1 loc2 : nat) :
  first_minimum d loc1 \/ first_nan d loc1 ->
  first_minimum d loc2 \/ first_nan d loc2 ->
  loc1 = loc2.
Proof.
  intros [[Hn1 (m1 & H1 & Hmin1 & Hf1)]|(m1 & H1 & Hm1 & Hf1)]
         [[Hn2 (m2 & H2 & Hmin2 & Hf2)]|(m2 & H2 & Hm2 & Hf2)].
  - destruct (Nat.lt_trichotomy loc1 loc2) as [Hlt|[Heq|Hgt]]; [|assumption|].
    + pose proof (Hf2 _ _ Hlt H1). pose proof (Hmin1 _ _ H2).
      pose proof (Hmin2 _ _ H1).
      assert ((m1 <=? m2)%float = true) by assumption.
      specialize (Hf2 _ _ Hlt H1). congruence.
    + specialize (Hf1 _ _ Hgt H2). pose proof (Hmin2 _ _ H1). congruence.
  - specialize (Hn1 _ _ H2). congruence.
  - specialize (Hn2 _ _ H1). congruence.
  - destruct (Nat.lt_trichotomy loc1 loc2) as [Hlt|[Heq|Hgt]]; [|assumption|].
    + specialize (Hf2 _ _ Hlt H1). congruence.
    + specialize (Hf1 _ _ Hgt H2). congruence.
Qed.

Lemma argmin_nonempty (d : list float) :
  d <> [] -> exists loc, argmin d = Ok loc.
Proof.
  destruct d as [|x d]; [congruence|]. intros _. simpl.
  destruct (is_nan x); eauto.
Qed.

Lemma argmin_iff (d : list float) (loc : nat) :
  argmin d = Ok loc <-> first_minimum d loc \/ first_nan d loc.
Proof.
  split; [apply argmin_closest|].
  intros Hspec.
  assert (Hne : d <> []).
  { intros ->. destruct Hspec as [[_ (m & H & _)]|(m & H & _)];
      destruct loc; discriminate. }
  destruct (argmin_nonempty Hne) as [loc' Hloc'].
  rewrite Hloc'. f_equal.
  eapply first_position_unique; [apply argmin_closest|]; eassumption.
Qed.

Lemma argmin_raises (d : list float) (e : exn) :
  argmin d = Raise e -> d = [] /\ e = ValueError_empty_argmin.
Proof.
  destruct d as [|x d]; simpl.
  - intros [= <-]. auto.
  - destruct (is_nan x); discriminate.
Qed.

Lemma argmin_in_range (d : list float) (loc : nat) :
  argmin d = Ok loc -> (loc < List.length d)%nat.
Proof.
  intros H. apply argmin_closest in H.
  destruct H as [[_ (m & H & _)]|(m & H & _)];
    apply nth_error_Some; rewrite H; discriminate.
Qed.

Lemma abs_diff_length (param_vals : list float) (value : Number) :
  List.length (abs_diff param_vals value) = List.length param_vals.
Proof. destruct value; apply length_map. Qed.

(** A lookup of a complex value never returns: on a non-empty value set
    [argmin] finds a position and [math.isclose] then rejects the value. *)
Lemma idx_for_value_complex (re im : float) (param_vals : list float) :
  idx_for_value (NComplex re im) param_vals
  = Raise (match param_vals with
           | [] => ValueError_empty_argmin
           | _ :: _ => TypeError_real_number
           end).
Proof.
  unfold idx_for_value. destruct param_vals as [|x0 rest]; [reflexivity|].
  destruct (@argmin_nonempty (abs_diff (x0 :: rest) (NComplex re im))) as [loc Hloc];
    [discriminate|].
  rewrite Hloc. cbn [bind].
  pose proof (argmin_in_range _ Hloc) as Hlt. rewrite abs_diff_length in Hlt.
  destruct (nth_error (x0 :: rest) loc) eqn:Hx; [reflexivity|].
  apply nth_error_None in Hx. lia.
Qed.

(** The lookup of a float: the position [argmin] finds is examined, and
    no other. *)
Lemma idx_for_value_float (value : float) (param_vals : list float) :
  (forall location : nat,
      idx_for_value value param_vals = Ok location <->
      (first_minimum (abs_diff param_vals value) location
       \/ first_nan (abs_diff param_vals value) location)
      /\ exists x, nth_error param_vals location = Some x /\ isclose x value = true)
  /\ match idx_for_value value param_vals with
     | Ok _ => True
     | Raise e =>
         (param_vals <> [] /\ e = ValueError_no_matching_entry) \/
         (param_vals = [] /\ e = ValueError_empty_argmin)
     end.
Proof.
  unfold idx_for_value. split.
  - intros location. rewrite <- argmin_iff. split.
    + destruct (argmin (abs_diff param_vals value)) as [loc|e] eqn:Hargmin; simpl;
        [|discriminate].
      destruct (nth_error param_vals loc) as [x|] eqn:Hx; [|discriminate].
      destruct (isclose x value) eqn:Hclose; [|discriminate].
      intros [= <-]. eauto.
    + intros [Hargmin (x & Hx & Hclose)].
      rewrite Hargmin. simpl. now rewrite Hx, Hclose.
  - destruct (argmin (abs_diff param_vals value)) as [loc|e] eqn:Hargmin; simpl.
    + pose proof (argmin_in_range _ Hargmin) as Hloc. rewrite abs_diff_length in Hloc.
      destruct (nth_error param_vals loc) as [x|] eqn:Hx.
      * destruct (isclose x value); [exact I|]. left. split; [|reflexivity].
        intros ->. destruct loc; discriminate.
      * apply nth_error_None in Hx. lia.
    + apply argmin_raises in Hargmin as [Hd ->]. right. split; [|reflexivity].
      destruct param_vals; [reflexivity|discriminate].
Qed.

Open Scope float_scope.
Open Scope string_scope.

(** C4. A complex value, which [std] and [std_slice_entry] hand to
    [idx_for_value] as they do a float, is never looked up: whatever the
    value set, [idx_for_value] raises TypeError from [math.isclose] (and
    NumPy's ValueError on an empty set), also when the set holds the very
    value, as [0.3] in [param1] for [0.3 + 0j].  For a float the position
    examined is the one [argmin] finds: the first at the least distance
    [|x - value|] when no distance is NaN, and the position of the first
    NaN distance otherwise; [idx_for_value] returns it exactly when the
    element there is close to the value in the sense of [math.isclose], and
    raises ValueError in every other case.  So in [[nan, 5.0]] the value
    [5.0] is not found; and next to [1.0] a value is found at a relative
    distance of [1e-10] and not at one of [1e-08]. *)
Theorem idx_for_value_closest_and_close :
  (forall (re im : float) (param_vals : list float),
      idx_for_value (NComplex re im) param_vals
      = Raise (match param_vals with
               | [] => ValueError_empty_argmin
               | _ :: _ => TypeError_real_number
               end))
  /\ idx_for_value 0.3 param1_vals = Ok 2%nat
  /\ idx_for_value (NComplex 0.3 0) param1_vals = Raise TypeError_real_number
  /\ (p <- Parameters.__init__ [("param1", param1_vals)] None ;;
      GIndexObject.std p 0 (GComplex 0.3 0)) = Raise TypeError_real_number
  /\ (forall (value : float) (param_vals : list float),
         (forall location : nat,
             idx_for_value value param_vals = Ok location <->
             (first_minimum (abs_diff param_vals value) location
              \/ first_nan (abs_diff param_vals value) location)
             /\ exists x, nth_error param_vals location = Some x
                          /\ isclose x value = true)
         /\ match idx_for_value value param_vals with
            | Ok _ => True
            | Raise e =>
                (param_vals <> [] /\ e = ValueError_no_matching_entry) \/
                (param_vals = [] /\ e = ValueError_empty_argmin)
            end)
  /\ idx_for_value 5.0 [nan; 5.0] = Raise ValueError_no_matching_entry
  /\ idx_for_value 1.0000000001 [1.0] = Ok 0%nat
  /\ idx_for_value 1.00000001 [1.0] = Raise ValueError_no_matching_entry.
Proof.
  split; [exact idx_for_value_complex|].
  split; [vm_compute; reflexivity|].
  split; [vm_compute; reflexivity|].
  split; [vm_compute; reflexivity|].
  split; [exact idx_for_value_float|].
  repeat split; vm_compute; reflexivity.
Qed.

(** ** Value-based lookup on the docstring's [param1] *)

(** C3. On [param1 = [-4.4, -0.1, 0.3, 10.0]] the element closest to
    [0.25] is [0.3] at position 2, but [0.3] is not close to [0.25] in the
    sense of [math.isclose]: the value-based entry [0.25], which the class
    docstring resolves to position 2, raises ValueError.  The entry [100.0]
    raises ValueError as well. *)
Theorem value_lookup_on_param1 :
  argmin (abs_diff param1_vals 0.25) = Ok 2%nat
  /\ nth_error param1_vals 2 = Some 0.3
  /\ isclose 0.3 0.25 = false
  /\ idx_for_value 0.25 param1_vals = Raise ValueError_no_matching_entry
  /\ (p <- Parameters.__init__ [("param1", param1_vals)] None ;;
      GIndexObject.std p 0 (GFloat 0.25)) = Raise ValueError_no_matching_entry
  /\ idx_for_value 100.0 param1_vals = Raise ValueError_no_matching_entry
  /\ (p <- Parameters.__init__ [("param1", param1_vals)] None ;;
      GIndexObject.std p 0 (GFloat 100.0)) = Raise ValueError_no_matching_entry.
Proof. repeat split; vm_compute; reflexivity. Qed.

(** ** Name-based entries are resolved by position *)

(** C1. A name-based entry ['name':x] with a float [x] is resolved among
    the values of the slot at the entry's own position [slot], whatever the
    name says.  So the docstring's [some_array['flux':0.5]] on the slots
    [ng], [flux] looks [0.5] up among the values of [ng], where nothing is
    close to it, and raises ValueError, although [0.5] is the value at
    position 3 of the named slot [flux]. *)
Theorem name_slice_value_looked_up_by_position :
  (forall (p : Parameters.t) (slot : nat) (name : string) (x : float),
      GIndexObject.std p slot (GSlice (SStr name) (SFloat x) SNone)
      = (vals <- Parameters.getitem_int p (Z.of_nat slot) ;;
         location <- idx_for_value x vals ;;
         Ok (Some name, T_slice_name, NpInt (Z.of_nat location))))
  /\ new_getitem some_array ng_flux (Bare (GSlice (SStr "flux") (SFloat 0.5) SNone))
     = Raise ValueError_no_matching_entry
  /\ idx_for_value 0.5 flux_vals = Ok 3%nat
  /\ idx_for_value 0.5 ng_vals = Raise ValueError_no_matching_entry.
Proof.
  split; [|repeat split; vm_compute; reflexivity].
  intros p slot name x. simpl.
  destruct (Parameters.getitem_int p (Z.of_nat slot)); simpl; [|reflexivity].
  destruct (idx_for_value x a); reflexivity.
Qed.

Close Scope string_scope.
Close Scope float_scope.

(** ** Ordered dictionaries *)

Section DictFacts.
Context {K : Type} `{Key K} {V : Type}.
Implicit Types (d : dict K V) (k : K) (v : V).

Lemma key_eqb_refl k : key_eqb k k = true.
Proof. now apply key_eqb_eq. Qed.

Lemma key_eqb_neq k k' : k <> k' -> key_eqb k k' = false.
Proof.
  intros Hne. destruct (key_eqb k k') eqn:E; [|reflexivity].
  apply key_eqb_eq in E. contradiction.
Qed.

Lemma key_eq_dec k k' : {k = k'} + {k <> k'}.
Proof.
  destruct (key_eqb k k') eqn:E.
  - left. now apply key_eqb_eq.
  - right. intros ->. rewrite key_eqb_refl in E. discriminate.
Qed.

Lemma dict_get_set_same d k v : dict_get (dict_set d k v) k = Some v.
Proof.
  induction d as [|[k' v'] d IH]; simpl.
  - now rewrite key_eqb_refl.
  - destruct (key_eqb k k') eqn:E; simpl; rewrite E; auto.
Qed.

Lemma dict_get_set_other d k k' v :
  k <> k' -> dict_get (dict_set d k v) k' = dict_get d k'.
Proof.
  intros Hne. induction d as [|[k0 v0] d IH]; simpl.
  - rewrite key_eqb_neq; auto.
  - destruct (key_eqb k k0) eqn:E; simpl.
    + apply key_eqb_eq in E. subst k0.
      now rewrite key_eqb_neq by congruence.
    + now rewrite IH.
Qed.

Lemma dict_get_Some_In d k v : dict_get d k = Some v -> In k (dict_keys d).
Proof.
  induction d as [|[k' v'] d IH]; simpl; [discriminate|].
  destruct (key_eqb k k') eqn:E.
  - apply key_eqb_eq in E. auto.
  - auto.
Qed.

Lemma dict_get_In d k : In k (dict_keys d) -> exists v, dict_get d k = Some v.
Proof.
  induction d as [|[k' v'] d IH]; simpl; [contradiction|].
  intros Hin. destruct (key_eqb k k') eqn:E; [eauto|].
  destruct Hin as [->|Hin]; [|auto].
  rewrite key_eqb_refl in E. discriminate.
Qed.

Lemma dict_get_None d k : ~ In k (dict_keys d) -> dict_get d k = None.
Proof.
  intros Hnin. destruct (dict_get d k) eqn:E; [|reflexivity].
  apply dict_get_Some_In in E. contradiction.
Qed.


Lemma dict_set_new d k v : ~ In k (dict_keys d) -> dict_set d k v = d ++ [(k, v)].
Proof.
  induction d as [|[k' v'] d IH]; simpl; [reflexivity|].
  intros Hnin. rewrite key_eqb_neq by (intros ->; auto).
  rewrite IH; auto.
Qed.

Lemma dict_keys_set_old d k v :
  In k (dict_keys d) -> dict_keys (dict_set d k v) = dict_keys d.
Proof.
  induction d as [|[k' v'] d IH]; simpl; [contradiction|].
  intros Hin. destruct (key_eqb k k') eqn:E; simpl; [reflexivity|].
  f_equal. apply IH. destruct Hin as [->|Hin]; [|assumption].
  rewrite key_eqb_refl in E. discriminate.
Qed.

Lemma In_keys_set d k v k' :
  In k' (dict_keys (dict_set d k v)) <-> k' = k \/ In k' (dict_keys d).
Proof.
  destruct (in_dec key_eq_dec k (dict_keys d)) as [Hin|Hnin].
  - rewrite dict_keys_set_old by assumption. split; [auto|].
    intros [->|Hk]; assumption.
  - rewrite dict_set_new by assumption. unfold dict_keys.
    rewrite map_app, in_app_iff. simpl. intuition.
Qed.



Lemma In_keys_assign_all items d k :
  In k (dict_keys (assign_all items d)) <-> In k (map fst items) \/ In k (dict_keys d).
Proof.
  revert d. induction items as [|[k0 v0] items IH]; intros d; simpl; [tauto|].
  rewrite IH, In_keys_set. intuition.
Qed.


Lemma In_keys_of_items (items : list (K * V)) k :
  In k (dict_keys (dict_of_items items)) <-> In k (map fst items).
Proof.
  unfold dict_of_items.
  rewrite In_keys_assign_all. simpl. tauto.
Qed.

Lemma assign_all_fresh items d :
  NoDup (dict_keys d ++ map fst items) -> assign_all items d = d ++ items.
Proof.
  revert d. induction items as [|[k v] items IH]; intros d Hnd; simpl.
  - now rewrite app_nil_r.
  - assert (Hnin : ~ In k (dict_keys d)).
    { apply NoDup_remove_2 in Hnd. rewrite in_app_iff in Hnd. tauto. }
    rewrite dict_set_new by assumption. rewrite IH.
    + now rewrite <- app_assoc.
    + unfold dict_keys in *. rewrite map_app, <- app_assoc. exact Hnd.
Qed.

(** Rebuilding a dict from its own items gives it back. *)
Lemma dict_of_items_NoDup d : NoDup (dict_keys d) -> dict_of_items d = d.
Proof.
  intros Hnd. unfold dict_of_items.
  now rewrite assign_all_fresh.
Qed.

Lemma dict_get_NoDup_In d k v :
  NoDup (dict_keys d) -> In (k, v) d -> dict_get d k = Some v.
Proof.
  induction d as [|[k' v'] d IH]; simpl; [contradiction|].
  intros Hnd [[= -> ->]|Hin].
  - now rewrite key_eqb_refl.
  - inversion Hnd as [|? ? Hnin Hnd']; subst.
    rewrite key_eqb_neq; [auto|].
    intros ->. apply Hnin. unfold dict_keys. now apply (in_map fst) in Hin.
Qed.

(** Assignments that set a key to the value it is to have. *)
Lemma assign_all_get items d k v :
  dict_get d k = Some v ->
  (forall v', In (k, v') items -> v' = v) ->
  dict_get (assign_all items d) k = Some v.
Proof.
  revert d. induction items as [|[k0 v0] items IH]; intros d Hget Hsame; simpl;
    [assumption|].
  apply IH; [|intros v' Hin; apply Hsame; now right].
  destruct (key_eq_dec k0 k) as [->|Hne].
  - rewrite dict_get_set_same. f_equal. apply Hsame. now left.
  - now rewrite dict_get_set_other.
Qed.

Lemma assign_all_functional items d k v :
  (forall k0 v1 v2, In (k0, v1) items -> In (k0, v2) items -> v1 = v2) ->
  In (k, v) items ->
  dict_get (assign_all items d) k = Some v.
Proof.
  revert d. induction items as [|[k0 v0] items IH]; intros d Hfun Hin; simpl;
    [contradiction|].
  destruct Hin as [[= -> ->]|Hin].
  - apply assign_all_get; [apply dict_get_set_same|].
    intros v' Hin'. eapply Hfun; [right; eassumption | left; reflexivity].
  - apply IH; [|assumption].
    intros k1 v1 v2 H1 H2. eapply Hfun; right; eassumption.
Qed.


End DictFacts.

(** ** Loops that may raise *)


Lemma mapM_total {A B} (f : A -> result B) (l : list A) :
  (forall a, In a l -> exists b, f a = Ok b) -> exists bs, mapM f l = Ok bs.
Proof.
  induction l as [|a l IH]; intros Hall; simpl; [eauto|].
  destruct (Hall a) as [b ->]; [now left|]. simpl.
  destruct IH as [bs ->]; [|simpl; eauto].
  intros a' Hin. apply Hall. now right.
Qed.

Lemma mapM_Ok {A B} (f : A -> result B) (l : list A) (bs : list B) :
  mapM f l = Ok bs -> Forall2 (fun a b => f a = Ok b) l bs.
Proof.
  revert bs. induction l as [|a l IH]; simpl; intros bs.
  - intros [= <-]. constructor.
  - destruct (f a) as [b|] eqn:Hb; simpl; [|discriminate].
    destruct (mapM f l) as [bs'|]; simpl; [|discriminate].
    intros [= <-]. constructor; auto.
Qed.

Lemma mapM_pure {A B} (f : A -> B) (l : list A) :
  mapM (fun a => Ok (f a)) l = Ok (map f l).
Proof.
  induction l as [|a l IH]; simpl; [reflexivity|]. now rewrite IH.
Qed.

Lemma map_snd_enumerate_from {A} (l : list A) (i : nat) :
  map snd (enumerate_from i l) = l.
Proof.
  revert i. induction l as [|a l IH]; intros i; simpl; [reflexivity|].
  now rewrite IH.
Qed.

(** ** [Parameters.__init__] *)

(** The comprehension [[(name, paramvals_by_name[name]) for name in names]]. *)
Lemma init_items_total (d : dict string (list float)) (names : list string) :
  (forall name, In name names -> In name (dict_keys d)) ->
  exists items,
    mapM (fun name => v <- dict_getitem d name ;; Ok (name, v)) names = Ok items
    /\ map fst items = names.
Proof.
  induction names as [|name names IH]; intros Hsub; simpl; [eauto|].
  destruct (dict_get_In d name) as [v Hv]; [apply Hsub; now left|].
  unfold dict_getitem at 1. rewrite Hv. simpl.
  destruct IH as (items & -> & Hfst); [intros n Hn; apply Hsub; now right|].
  simpl. eexists. split; [reflexivity|]. simpl. now rewrite Hfst.
Qed.

Lemma init_items_of_dict (d0 d : dict string (list float)) :
  (forall k v, In (k, v) d -> dict_get d0 k = Some v) ->
  mapM (fun name => v <- dict_getitem d0 name ;; Ok (name, v)) (dict_keys d) = Ok d.
Proof.
  induction d as [|[k v] d IH]; intros Hall; simpl; [reflexivity|].
  unfold dict_getitem at 1. rewrite (Hall k v) by now left. simpl.
  rewrite IH; [reflexivity|]. intros k' v' Hin. apply Hall. now right.
Qed.

(** What a successful construction stores. *)
Lemma init_inv (d : dict string (list float)) (names_opt : option (list string))
      (p : Parameters.t) :
  Parameters.__init__ d names_opt = Ok p ->
  exists items,
    mapM (fun name => v <- dict_getitem d name ;; Ok (name, v))
         (match names_opt with Some l => l | None => dict_keys d end) = Ok items
    /\ Parameters.paramnames_list p
       = match names_opt with Some l => l | None => dict_keys d end
    /\ Parameters.paramvals_by_name p = dict_of_items items.
Proof.
  unfold Parameters.__init__.
  set (names := match names_opt with Some l => l | None => dict_keys d end).
  intros Hinit.
  destruct (mapM _ names) as [items|] eqn:Hitems; simpl in Hinit; [|discriminate].
  destruct (mapM _ (dict_of_items items)) as [by_index|]; simpl in Hinit; [|discriminate].
  injection Hinit as <-. simpl. eauto.
Qed.

(** Construction succeeds as soon as every listed name is a key. *)
Lemma init_total (d : dict string (list float)) (names_opt : option (list string)) :
  (forall name, In name (match names_opt with Some l => l | None => dict_keys d end) ->
                In name (dict_keys d)) ->
  exists p, Parameters.__init__ d names_opt = Ok p.
Proof.
  intros Hsub. unfold Parameters.__init__.
  set (names := match names_opt with Some l => l | None => dict_keys d end) in *.
  destruct (init_items_total d names Hsub) as (items & -> & Hfst). simpl.
  match goal with |- context [mapM ?f (dict_of_items items)] =>
    destruct (@mapM_total _ _ f (dict_of_items items)) as [by_index ->] end;
    [|simpl; eauto].
  intros [name v] Hin. simpl.
  assert (Hname : In name names).
  { rewrite <- Hfst. apply In_keys_of_items.
    unfold dict_keys. now apply (in_map fst) in Hin. }
  destruct (dict_get_In
              (dict_of_items (map (fun ix => (snd ix, fst ix)) (enumerate names))) name)
    as [i Hi].
  { apply In_keys_of_items. rewrite map_map. simpl.
    unfold enumerate.
    rewrite (map_ext _ snd) by reflexivity.
    rewrite (map_snd_enumerate_from names 0). exact Hname. }
  unfold dict_getitem. rewrite Hi. simpl. eauto.
Qed.

(** A mapping with an empty value sequence, and a name list that repeats
    a name, are both accepted. *)
Lemma init_accepts_empty_and_repeated :
  (exists p, Parameters.__init__ [("a"%string, [])] None = Ok p)
  /\ (exists p, Parameters.__init__ [("a"%string, [1.0%float])]
                                    (Some ["a"%string; "a"%string]) = Ok p).
Proof. split; eexists; vm_compute; reflexivity. Qed.

(** Construction from a mapping alone: it succeeds, the names are the keys
    and, for distinct keys, the stored mapping is the given one. *)
Lemma init_from_mapping (d : dict string (list float)) :
  exists p,
    Parameters.__init__ d None = Ok p
    /\ Parameters.paramnames_list p = dict_keys d
    /\ (NoDup (dict_keys d) -> Parameters.paramvals_by_name p = d).
Proof.
  destruct (init_total d None) as [p Hp]; [auto|].
  exists p. split; [assumption|].
  destruct (init_inv _ _ Hp) as (items & Hitems & Hnames & Hvals).
  split; [assumption|]. intros Hnd.
  rewrite init_items_of_dict in Hitems
    by (intros k v Hin; now apply dict_get_NoDup_In).
  injection Hitems as <-. rewrite Hvals. now apply dict_of_items_NoDup.
Qed.

(** C5, as the code has it. Constructing [Parameters] from a name-to-values
    mapping validates nothing and always succeeds, whatever the value
    sequences are (empty ones included); the names are the mapping's keys
    in order and, the keys of a mapping being distinct, the stored mapping
    is the given one. *)
Theorem init_from_mapping_succeeds (d : dict string (list float)) :
  exists p,
    Parameters.__init__ d None = Ok p
    /\ Parameters.paramnames_list p = dict_keys d
    /\ (NoDup (dict_keys d) -> Parameters.paramvals_by_name p = d).
Proof. exact (init_from_mapping d). Qed.

(** ** Indexing with a bare integer *)

Lemma square_labeled_built :
  NamedSlotsNdarray.__new__ square_array ab_vals = Ok square_labeled.
Proof. vm_compute. reflexivity. Qed.



(** ** Positional indexing *)

Lemma std_plain (p : Parameters.t) (slot : nat) (e : GIndex) :
  plain_index e = true ->
  exists ty, ty <> T_slice_name /\ GIndexObject.std p slot e = Ok (None, ty, np_index e).
Proof.
  destruct e as [i|x|start stop step|s|re im]; simpl; try discriminate.
  - intros _. exists T_int. split; [discriminate|reflexivity].
  - intros Hplain. exists T_slice. split; [discriminate|].
    destruct start, stop, step; simpl in *; try discriminate; reflexivity.
Qed.

Lemma init_plain (p : Parameters.t) (entries : list GIndex) (i : nat) :
  forallb plain_index entries = true ->
  exists gidx,
    mapM (fun se => GIndexObject.__init__ (snd se) p (fst se)) (enumerate_from i entries)
    = Ok gidx
    /\ map GIndexObject.std_index gidx = map np_index entries
    /\ Forall (fun g => GIndexObject.type g <> T_slice_name) gidx.
Proof.
  revert i. induction entries as [|e entries IH]; intros i; simpl.
  - intros _. exists []. auto.
  - rewrite andb_true_iff. intros [He Hrest].
    destruct (std_plain p i e He) as (ty & Hty & Hstd).
    unfold GIndexObject.__init__ at 1. rewrite Hstd. simpl.
    destruct (IH (S i) Hrest) as (gidx & -> & Hmap & Hall). simpl.
    eexists. split; [reflexivity|]. simpl. split; [now rewrite Hmap|].
    constructor; assumption.
Qed.

(** A non-empty tuple of plain integers and standard slices reaches the
    dense array as it is; whenever the indexing returns, its data is the
    dense array indexed with the same tuple. *)
Lemma getitem_plain_data (self : NamedSlotsNdarray.t) (entries : list GIndex)
      (v : NamedSlotsNdarray.value) :
  forallb plain_index entries = true ->
  NamedSlotsNdarray.__getitem__ self (Tuple entries) = Ok v ->
  nd_getitem (map np_index entries) (NamedSlotsNdarray.data self) = Ok (value_data v).
Proof.
  intros Hplain. unfold NamedSlotsNdarray.__getitem__, enumerate.
  destruct (init_plain (NamedSlotsNdarray.parameters self) entries 0 Hplain)
    as (gidx & -> & Hmap & Hall). simpl.
  unfold NamedSlotsNdarray._to_std_index_tuple.
  destruct gidx as [|g gidx]; simpl; [discriminate|].
  inversion Hall as [|? ? Hg Hrest]; subst.
  change (GIndexObject.std_index g :: map GIndexObject.std_index gidx)
    with (map GIndexObject.std_index (g :: gidx)).
  rewrite Hmap.
  assert (Hty : gtype_eqb (GIndexObject.type g) T_slice_name = false)
    by (destruct (GIndexObject.type g) eqn:E; try reflexivity; congruence).
  rewrite Hty. simpl.
  destruct (nd_getitem (map np_index entries) (NamedSlotsNdarray.data self))
    as [[x|l|d inner]|]; simpl; [| | |discriminate].
  - intros [= <-]. reflexivity.
  - destruct (Parameters.create_sliced _ _); simpl; [|discriminate].
    intros [= <-]. reflexivity.
  - destruct (Parameters.create_sliced _ _); simpl; [|discriminate].
    intros [= <-]. reflexivity.
Qed.

Open Scope float_scope.
Open Scope string_scope.

(** C6. [line_array[0:2]] on the dense array is [[1, 2]], but the same
    standard slice on the labeled one-slot array raises ValueError: building
    the sliced [Parameters] assigns the two sliced values to a row of three
    of the object array.  A standard slice of a dimension beyond the named
    slots ([tall_array[:, 0:1]]) raises IndexError there, and so does the
    empty tuple in [_to_std_index_tuple]; the dense array accepts both. *)
Theorem standard_slice_raises_in_create_sliced :
  nd_getitem [NpSlice (Some 0%Z) (Some 2%Z) None] line_array = Ok (Arr [Item 1; Item 2])
  /\ new_getitem line_array line_vals (Tuple [GSlice (SInt 0) (SInt 2) SNone])
     = Raise ValueError_broadcast
  /\ nd_getitem [NpSlice None None None; NpSlice (Some 0%Z) (Some 1%Z) None] tall_array
     = Ok (Arr [Arr [Item 0]; Arr [Item 10]; Arr [Item 20]])
  /\ new_getitem tall_array line_vals
       (Tuple [GSlice SNone SNone SNone; GSlice (SInt 0) (SInt 1) SNone])
     = Raise IndexError
  /\ nd_getitem [] line_array = Ok line_array
  /\ new_getitem line_array line_vals (Tuple []) = Raise IndexError.
Proof. repeat split; vm_compute; reflexivity. Qed.

(** ** [create_sliced] *)

(** C7. Slots [a] and [b] with two values each, sliced with [(0, :)]: the
    integer-indexed slot [a] is not dropped but kept with its first value
    repeated, because the value sets of one length form a two-dimensional
    object array whose rows keep their length.  With value sets of
    different lengths ([ng], [flux]) the integer-indexed slot is dropped. *)
Theorem integer_indexed_slot_is_kept :
  (p <- Parameters.__init__ ab_vals None ;;
   p' <- Parameters.create_sliced p [NpInt 0; NpSlice None None None] ;;
   Ok (Parameters.paramvals_by_name p'))
  = Ok [("a", [1.0; 1.0]); ("b", [3.0; 4.0])]
  /\ (p <- Parameters.__init__ ng_flux None ;;
      p' <- Parameters.create_sliced p [NpInt 0; NpSlice None None None] ;;
      Ok (Parameters.paramvals_by_name p'))
     = Ok [("flux", flux_vals)].
Proof. split; vm_compute; reflexivity. Qed.

Close Scope string_scope.
Close Scope float_scope.

(** ** Serialization *)

(** The nested-list form gives the array back when it shows all its
    axes, and only then. *)
Lemma asarray_tolist : forall a : ndarray,
  zero_axes_last a = true -> asarray (tolist a) = a.
Proof.
  fix IH 1. intros [x|l|d inner]; simpl; [reflexivity| |discriminate].
  intros Hall. f_equal.
  induction l as [|a l IHl]; simpl in *; [reflexivity|].
  apply andb_true_iff in Hall as [Ha Hl]. now rewrite IH, IHl.
Qed.

Lemma asarray_tolist_only : forall a : ndarray,
  asarray (tolist a) = a -> zero_axes_last a = true.
Proof.
  fix IH 1. intros [x|l|d inner]; simpl; [reflexivity| |discriminate].
  intros [= Hl].
  induction l as [|a l IHl]; simpl in *; [reflexivity|].
  injection Hl as Ha Hl. now rewrite (IH a Ha), IHl.
Qed.


Lemma shape_eqb_eq (s1 s2 : list nat) :
  NamedSlotsNdarray.shape_eqb s1 s2 = true <-> s1 = s2.
Proof.
  unfold NamedSlotsNdarray.shape_eqb.
  destruct (list_eq_dec Nat.eq_dec s1 s2); split; congruence.
Qed.

(** What the constructor checks and stores. *)
Lemma new_inv (input_array : ndarray) (values_by_name : dict string (list float))
      (X : NamedSlotsNdarray.t) :
  NamedSlotsNdarray.__new__ input_array values_by_name = Ok X ->
  firstn (List.length values_by_name) (shape input_array)
  = map (fun nv => List.length (snd nv)) values_by_name
  /\ NamedSlotsNdarray.data X = input_array
  /\ Parameters.__init__ values_by_name None = Ok (NamedSlotsNdarray.parameters X).
Proof.
  unfold NamedSlotsNdarray.__new__.
  destruct (NamedSlotsNdarray.shape_eqb _ _) eqn:Hshape; simpl; [|discriminate].
  apply shape_eqb_eq in Hshape.
  destruct (Parameters.__init__ values_by_name None); simpl; [|discriminate].
  intros [= <-]. auto.
Qed.


(** An array of shape [(0, 5)] over the slots [a] (no value) and [b]
    (five values) is accepted by the constructor; its list form is [[]],
    which is read back with shape [(0,)], and the constructor's shape check
    rejects it.  Over the slot [a] alone it is read back, with shape [(0,)]. *)
Lemma roundtrip_of_empty_axis :
  (exists X,
      NamedSlotsNdarray.__new__ (Empty 5 []) [("a"%string, []); ("b"%string, flux_vals)]
      = Ok X)
  /\ (X <- NamedSlotsNdarray.__new__ (Empty 5 [])
                                     [("a"%string, []); ("b"%string, flux_vals)] ;;
      NamedSlotsNdarray.deserialize (NamedSlotsNdarray.serialize X))
     = Raise ValueError_shape
  /\ (X <- NamedSlotsNdarray.__new__ (Empty 5 []) [("a"%string, [])] ;;
      X' <- NamedSlotsNdarray.deserialize (NamedSlotsNdarray.serialize X) ;;
      Ok (NamedSlotsNdarray.data X'))
     = Ok (Arr []).
Proof. split; [eexists; vm_compute; reflexivity | split; vm_compute; reflexivity]. Qed.


Lemma NoDup_ab : NoDup ["a"%string; "b"%string].
Proof. repeat constructor; simpl; intuition discriminate. Qed.


(** Every array the constructor returns for a mapping, with its axes of
    length zero last, is such an [X]. *)
Lemma new_roundtrips (input_array : ndarray) (values_by_name : dict string (list float))
      (X : NamedSlotsNdarray.t) :
  NoDup (dict_keys values_by_name) ->
  zero_axes_last input_array = true ->
  NamedSlotsNdarray.__new__ input_array values_by_name = Ok X ->
  NamedSlotsNdarray.deserialize (NamedSlotsNdarray.serialize X) = Ok X.
Proof.
  intros Hnd Hlast Hnew. destruct (new_inv _ _ Hnew) as (Hshape & Hdata & Hinit).
  destruct (init_from_mapping values_by_name) as (p & Hp & _ & Hvals).
  assert (Hpx : p = NamedSlotsNdarray.parameters X) by congruence.
  unfold NamedSlotsNdarray.deserialize, NamedSlotsNdarray.serialize. simpl.
  rewrite Hdata, (asarray_tolist _ Hlast), <- Hpx, Hvals by assumption.
  exact Hnew.
Qed.

(** With an axis after one of length zero, what is read back is never the
    array that was written. *)
Lemma roundtrip_needs_nested_form (X X' : NamedSlotsNdarray.t) :
  NamedSlotsNdarray.deserialize (NamedSlotsNdarray.serialize X) = Ok X' ->
  NamedSlotsNdarray.data X' = NamedSlotsNdarray.data X ->
  zero_axes_last (NamedSlotsNdarray.data X) = true.
Proof.
  unfold NamedSlotsNdarray.deserialize, NamedSlotsNdarray.serialize. simpl.
  intros Hnew Hdata. apply new_inv in Hnew as (_ & Hd & _).
  apply asarray_tolist_only. congruence.
Qed.

(** ** [create_reduced] *)

Lemma list_getitem_nat {A} (l : list A) (i : nat) :
  list_getitem l (Z.of_nat i)
  = match nth_error l i with
    | Some a => Ok a
    | None => Raise IndexError
    end.
Proof.
  unfold list_getitem. cbv zeta.
  assert (Hneg : (Z.of_nat i <? 0)%Z = false) by (apply Z.ltb_ge; lia).
  rewrite Hneg. cbv iota. rewrite Hneg, Nat2Z.id. simpl.
  destruct (Z.leb_spec (Z.of_nat (List.length l)) (Z.of_nat i)) as [Hge|Hlt].
  - destruct (nth_error l i) eqn:E; [|reflexivity].
    assert (i < List.length l)%nat by (apply nth_error_Some; congruence). lia.
  - reflexivity.
Qed.

(** The assignment loop over [enumerate(names)] reading [fixed_values]. *)
Lemma for_enumerate_assign (names : list string) :
  forall (fv pre : list (list float)) (d : dict string (list float)),
    List.length fv = List.length names ->
    for_enumerate
      (fun d index name =>
         v <- list_getitem (pre ++ fv) (Z.of_nat index) ;; Ok (dict_set d name v))
      (List.length pre) names d
    = Ok (assign_all (combine names fv) d).
Proof.
  induction names as [|name names IH]; intros fv pre d Hlen; simpl; [reflexivity|].
  destruct fv as [|v fv]; [discriminate|]. simpl in Hlen.
  rewrite list_getitem_nat, nth_error_app2, Nat.sub_diag by lia. simpl.
  specialize (IH fv (pre ++ [v]) (dict_set d name v)).
  rewrite <- app_assoc, length_app in IH. simpl in IH.
  rewrite Nat.add_1_r in IH. apply IH. lia.
Qed.

Lemma Forall2_combine_In {A B} (R : A -> B -> Prop) (l1 : list A) (l2 : list B) a b :
  Forall2 R l1 l2 -> In (a, b) (combine l1 l2) -> R a b.
Proof.
  induction 1 as [|x y l1 l2 Hxy _ IH]; simpl; [contradiction|].
  intros [[= -> ->]|Hin]; auto.
Qed.

Lemma Forall2_In_l {A B} (R : A -> B -> Prop) (l1 : list A) (l2 : list B) a :
  Forall2 R l1 l2 -> In a l1 -> exists b, In (a, b) (combine l1 l2).
Proof.
  induction 1 as [|x y l1 l2 Hxy _ IH]; simpl; [contradiction|].
  intros [->|Hin]; [eauto|]. destruct (IH Hin) as [b Hb]. eauto.
Qed.


(** What a successful reduction computes: the mapping [d] it hands to
    the constructor, and the facts about it. *)
Lemma create_reduced_inv (self : Parameters.t) (names : list string) (p' : Parameters.t) :
  Parameters.create_reduced self names None = Ok p' ->
  exists fv items,
    mapM (first_value self) names = Ok fv
    /\ mapM (fun name => v <- Parameters.getitem_str self name ;; Ok (name, v))
            (Parameters.paramnames_list self) = Ok items
    /\ Parameters.__init__ (assign_all (combine names fv) (dict_of_items items)) None
       = Ok p'.
Proof.
  unfold Parameters.create_reduced. fold (first_value self).
  destruct (mapM (first_value self) names) as [fv|] eqn:Hfv; simpl; [|discriminate].
  destruct (mapM _ (Parameters.paramnames_list self)) as [items|] eqn:Hitems;
    simpl; [|discriminate].
  pose proof (for_enumerate_assign names fv [] (dict_of_items items)) as Hloop.
  simpl in Hloop. rewrite Hloop.
  - simpl. eauto.
  - apply mapM_Ok in Hfv. symmetry. eapply Forall2_length. eassumption.
Qed.




(** The first reduction returns whenever the listed names are slots with
    a first value (and the name list of [self] holds keys of its mapping,
    as it does after construction). *)
Lemma create_reduced_total (self : Parameters.t) (names : list string) :
  (forall name, In name names ->
     exists x rest, dict_get (Parameters.paramvals_by_name self) name = Some (x :: rest)) ->
  (forall name, In name (Parameters.paramnames_list self) ->
     In name (dict_keys (Parameters.paramvals_by_name self))) ->
  exists p', Parameters.create_reduced self names None = Ok p'.
Proof.
  intros Hfirst Hkeys. unfold Parameters.create_reduced. fold (first_value self).
  destruct (@mapM_total _ _ (first_value self) names) as [fv Hfv].
  { intros name Hin. destruct (Hfirst name Hin) as (x & rest & Hget).
    unfold first_value, Parameters.getitem_str, dict_getitem. rewrite Hget. simpl.
    eauto. }
  rewrite Hfv. simpl.
  destruct (init_items_total (Parameters.paramvals_by_name self)
                             (Parameters.paramnames_list self) Hkeys)
    as (items & Hitems & _).
  unfold Parameters.getitem_str. rewrite Hitems. simpl.
  pose proof (for_enumerate_assign names fv [] (dict_of_items items)) as Hloop.
  simpl in Hloop. rewrite Hloop.
  - simpl. destruct (init_from_mapping (assign_all (combine names fv) (dict_of_items items)))
      as (p & Hp & _). eauto.
  - apply mapM_Ok in Hfv. symmetry. eapply Forall2_length. eassumption.
Qed.

(** ** Mixed-mode multi-indices *)

Lemma never_mixed_bind {A B} (r : result A) (k : A -> result B) :
  never_mixed r -> (forall a, never_mixed (k a)) -> never_mixed (bind r k).
Proof.
  unfold never_mixed. destruct r as [a|e]; simpl; [auto|]. intros He _. congruence.
Qed.

Lemma never_mixed_mapM {A B} (f : A -> result B) (l : list A) :
  (forall a, never_mixed (f a)) -> never_mixed (mapM f l).
Proof.
  intros Hf. induction l as [|a l IH]; simpl; [discriminate|].
  apply never_mixed_bind; [apply Hf|]. intros b.
  apply never_mixed_bind; [apply IH|]. intros bs. discriminate.
Qed.

Lemma never_mixed_for_enumerate {A St} (body : St -> nat -> A -> result St)
      (l : list A) :
  (forall acc i a, never_mixed (body acc i a)) ->
  forall i acc, never_mixed (for_enumerate body i l acc).
Proof.
  intros Hbody. induction l as [|a l IH]; intros i acc; simpl; [discriminate|].
  apply never_mixed_bind; auto.
Qed.

(** Splits a computation along its binds, loops and case distinctions and
    closes the leaves that raise another exception or return. *)
Ltac never_mixed_step :=
  match goal with
  | |- never_mixed (bind _ _) => apply never_mixed_bind; [|intros ?]
  | |- never_mixed (mapM _ _) => apply never_mixed_mapM; intros ?
  | |- never_mixed (for_enumerate _ _ _ _) =>
      apply never_mixed_for_enumerate; intros ? ? ?
  | |- never_mixed (match ?x with _ => _ end) => destruct x
  | |- never_mixed (Ok _) => discriminate
  | |- never_mixed (Raise _) => discriminate
  | |- never_mixed (let _ := _ in _) => cbv zeta
  end.

Create HintDb never_mixed.
Ltac never_mixed_auto := repeat (first [never_mixed_step | solve [auto with never_mixed]]).

Lemma never_mixed_list_getitem {A} (l : list A) (i : Z) : never_mixed (list_getitem l i).
Proof. unfold list_getitem. never_mixed_auto. Qed.

Lemma never_mixed_list_setitem {A} (l : list A) (i : nat) (a : A) :
  never_mixed (list_setitem l i a).
Proof.
  revert i. induction l as [|x l IH]; intros [|i]; simpl; try discriminate.
  apply never_mixed_bind; [apply IH | discriminate].
Qed.

Lemma never_mixed_list_getslice {A} (l : list A) (start stop step : option Z) :
  never_mixed (list_getslice l start stop step).
Proof.
  unfold list_getslice, slice_adjust. cbv zeta.
  destruct (match step with Some s => s | None => 1%Z end =? 0)%Z; simpl; discriminate.
Qed.

Lemma never_mixed_dict_getitem {V} (d : dict string V) (k : string) :
  never_mixed (dict_getitem d k).
Proof. unfold dict_getitem. never_mixed_auto. Qed.

#[local] Hint Resolve never_mixed_list_getitem never_mixed_list_setitem
  never_mixed_list_getslice never_mixed_dict_getitem : never_mixed.

Lemma never_mixed_idx_for_value (value : Number) (param_vals : list float) :
  never_mixed (idx_for_value value param_vals).
Proof. unfold idx_for_value, argmin, as_double. never_mixed_auto. Qed.

Lemma never_mixed_init (d : dict string (list float)) (names : option (list string)) :
  never_mixed (Parameters.__init__ d names).
Proof. unfold Parameters.__init__. never_mixed_auto. Qed.

Lemma never_mixed_getitem_int (p : Parameters.t) (key : Z) :
  never_mixed (Parameters.getitem_int p key).
Proof. unfold Parameters.getitem_int. never_mixed_auto. Qed.

#[local] Hint Resolve never_mixed_idx_for_value never_mixed_init
  never_mixed_getitem_int : never_mixed.

Lemma never_mixed_create_sliced (p : Parameters.t) (np_indices : NpIndexTuple) :
  never_mixed (Parameters.create_sliced p np_indices).
Proof.
  unfold Parameters.create_sliced, Parameters.paramvals_list, Parameters.slice_in_place,
    Parameters.kept, Parameters.getitem_1d, Parameters.broadcast_to_row.
  never_mixed_auto.
Qed.

Lemma never_mixed_std_slice_entry (p : Parameters.t) (slot : nat) (s : GSliceEntry) :
  never_mixed (GIndexObject.std_slice_entry p slot s).
Proof. unfold GIndexObject.std_slice_entry. never_mixed_auto. Qed.

#[local] Hint Resolve never_mixed_create_sliced never_mixed_std_slice_entry : never_mixed.

Lemma never_mixed_std (p : Parameters.t) (slot : nat) (e : GIndex) :
  never_mixed (GIndexObject.std p slot e).
Proof. unfold GIndexObject.std. never_mixed_auto. Qed.

Lemma never_mixed_gindex_init (e : GIndex) (p : Parameters.t) (slot : nat) :
  never_mixed (GIndexObject.__init__ e p slot).
Proof. unfold GIndexObject.__init__, GIndexObject.std. never_mixed_auto. Qed.

Lemma never_mixed_slice_adjust (n : Z) (start stop step : option Z) :
  never_mixed (slice_adjust n start stop step).
Proof.
  unfold slice_adjust. cbv zeta.
  destruct (match step with Some s => s | None => 1%Z end =? 0)%Z; discriminate.
Qed.

#[local] Hint Resolve never_mixed_slice_adjust : never_mixed.

Lemma never_mixed_index_shape (np_indices : NpIndexTuple) :
  forall s, never_mixed (index_shape np_indices s).
Proof.
  induction np_indices as [|ix rest IH]; intros s; simpl; [discriminate|].
  destruct ix as [i|start stop step|]; [destruct s | destruct s |]; never_mixed_auto.
Qed.

#[local] Hint Resolve never_mixed_index_shape : never_mixed.

Lemma never_mixed_select (np_indices : NpIndexTuple) :
  forall a, never_mixed (select np_indices a).
Proof.
  induction np_indices as [|ix rest IH]; intros a; simpl; [discriminate|].
  destruct ix as [i|start stop step|]; [destruct a | destruct a |]; never_mixed_auto.
Qed.

Lemma never_mixed_nd_getitem (np_indices : NpIndexTuple) (a : ndarray) :
  never_mixed (nd_getitem np_indices a).
Proof.
  unfold nd_getitem.
  destruct (Nat.ltb _ _); [discriminate | apply never_mixed_select].
Qed.

#[local] Hint Resolve never_mixed_gindex_init never_mixed_nd_getitem : never_mixed.

(** The type tag tells the name-based entries apart. *)
Lemma std_type (p : Parameters.t) (slot : nat) (e : GIndex) n ty ix :
  GIndexObject.std p slot e = Ok (n, ty, ix) ->
  gtype_eqb ty T_slice_name = name_based e.
Proof.
  destruct e as [i|x|start stop step|s|re im]; simpl.
  - intros [= <- <- <-]. reflexivity.
  - destruct (Parameters.getitem_int p (Z.of_nat slot)); simpl; [|discriminate].
    destruct (idx_for_value x a); simpl; [|discriminate].
    intros [= <- <- <-]. reflexivity.
  - destruct start as [|i|x|name|re im].
    4: { destruct (GIndexObject.std_slice_entry p slot stop); simpl; [|discriminate].
         destruct (GIndexObject.std_slice_entry p slot step) as [[j|]|]; simpl;
           try discriminate; intros [= <- <- <-]; reflexivity. }
    all: destruct (GIndexObject.std_slice_entry p slot _); simpl; [|discriminate];
      destruct (GIndexObject.std_slice_entry p slot stop); simpl; [|discriminate];
      destruct step; simpl; try discriminate;
      try (destruct (GIndexObject.std_slice_entry p slot _); simpl; [|discriminate]);
      intros [= <- <- <-]; reflexivity.
  - discriminate.
  - destruct (Parameters.getitem_int p (Z.of_nat slot)); simpl; [|discriminate].
    destruct (idx_for_value (NComplex re im) a); simpl; [|discriminate].
    intros [= <- <- <-]. reflexivity.
Qed.

(** A multi-index whose first entry is not name-based never raises the
    mixed-mode TypeError, whatever entries follow. *)
Lemma positional_first_never_mixed (self : NamedSlotsNdarray.t)
      (e : GIndex) (rest : list GIndex) :
  name_based e = false ->
  never_mixed (NamedSlotsNdarray.__getitem__ self (Tuple (e :: rest))).
Proof.
  intros He. unfold NamedSlotsNdarray.__getitem__, enumerate. simpl.
  unfold GIndexObject.__init__ at 1.
  destruct (GIndexObject.std (NamedSlotsNdarray.parameters self) 0 e)
    as [[[n ty] ix]|err] eqn:Hstd; simpl.
  - apply std_type in Hstd. rewrite He in Hstd.
    match goal with |- context [mapM ?f ?l] =>
      assert (Hrest : never_mixed (mapM f l)) by never_mixed_auto;
      destruct (mapM f l) as [bs|err]
    end; simpl; [|intros [= ->]; now apply Hrest].
    rewrite Hstd. simpl. never_mixed_auto.
  - intros [= ->]. now apply never_mixed_std in Hstd.
Qed.

(** With a name-based first entry, an entry that is not name-based makes
    the conversion raise. *)
Lemma name_based_conversion_raises (self : NamedSlotsNdarray.t)
      (multi_index : list GIndexObject.t) :
  Exists (fun g => GIndexObject.type g <> T_slice_name) multi_index ->
  forall i converted,
    exists err,
      for_enumerate
        (fun converted_multi_index (_ : nat) gidx_object =>
           if negb (gtype_eqb (GIndexObject.type gidx_object) T_slice_name)
           then Raise TypeError_mixed
           else
             slot_index <-
               match GIndexObject.name gidx_object with
               | Some name =>
                   dict_getitem
                     (Parameters.index_by_name (NamedSlotsNdarray.parameters self)) name
               | None => Raise TypeError_index
               end ;;
             list_setitem converted_multi_index slot_index
                          (GIndexObject.std_index gidx_object))
        i multi_index converted
      = Raise err.
Proof.
  induction 1 as [g l Hg|g l _ IH]; intros i converted; simpl.
  - destruct (GIndexObject.type g); simpl; try congruence; eauto.
  - destruct (negb (gtype_eqb (GIndexObject.type g) T_slice_name)); simpl; [eauto|].
    match goal with |- context [bind (bind ?r ?k) _] => destruct (bind r k) end;
      simpl; eauto.
Qed.

Lemma name_based_first_rejects (self : NamedSlotsNdarray.t)
      (multi_index : list GIndexObject.t) :
  Exists (fun g => GIndexObject.type g <> T_slice_name) multi_index ->
  exists err,
    NamedSlotsNdarray._name_based_to_std_index_tuple self multi_index = Raise err.
Proof.
  intros Hex. unfold NamedSlotsNdarray._name_based_to_std_index_tuple.
  now apply name_based_conversion_raises.
Qed.

Open Scope float_scope.
Open Scope string_scope.

(** C2. A positional entry followed by a name-based one does not raise the
    mixed-mode TypeError, on any array: the name-based entry is used as a
    plain index of the axis it stands at.  So [some_array[0, 'flux':1]]
    returns the element [(0, 1)], while [some_array['flux':1, 0]], with the
    name-based entry first, raises the mixed-mode TypeError. *)
Theorem positional_then_name_based_is_accepted :
  (forall (self : NamedSlotsNdarray.t) (i : Z) (name : string) (stop step : GSliceEntry),
      NamedSlotsNdarray.__getitem__ self (Tuple [GInt i; GSlice (SStr name) stop step])
      <> Raise TypeError_mixed)
  /\ new_getitem some_array ng_flux
       (Tuple [GInt 0; GSlice (SStr "flux") (SInt 1) SNone])
     = Ok (NamedSlotsNdarray.Scalar 1)
  /\ new_getitem some_array ng_flux
       (Tuple [GSlice (SStr "flux") (SInt 1) SNone; GInt 0])
     = Raise TypeError_mixed.
Proof.
  split; [|split; vm_compute; reflexivity].
  intros self i name stop step.
  now apply (@positional_first_never_mixed self (GInt i)).
Qed.

Close Scope string_scope.
Close Scope float_scope.

(* ================================================================== *)
(** * Further properties *)

(** ** [is_std_slice] and [npindices] *)

Lemma std_component_spec (s : GSliceEntry) :
  (truthy s && negb (is_int s)) = false <-> std_component s.
Proof.
  destruct s as [|i|x|t|re im]; simpl.
  - tauto.
  - rewrite andb_false_r. tauto.
  - rewrite andb_true_r, negb_false_iff. tauto.
  - rewrite andb_true_r, negb_false_iff. apply String.eqb_eq.
  - rewrite andb_true_r, negb_false_iff. apply andb_true_iff.
Qed.

Lemma is_std_slice_spec (start stop step : GSliceEntry) :
  is_std_slice start stop step = true
  <-> std_component start /\ std_component stop /\ std_component step.
Proof.
  unfold is_std_slice. rewrite <- !std_component_spec.
  destruct (truthy start && negb (is_int start)),
           (truthy stop && negb (is_int stop)),
           (truthy step && negb (is_int step)); simpl; intuition congruence.
Qed.

Lemma npindices_single (e : GIndex) : npindices (Single e) = true <-> std_entry e.
Proof.
  destruct e as [i|x|start stop step|t|re im]; simpl;
    try (split; [discriminate|contradiction]).
  - tauto.
  - apply is_std_slice_spec.
Qed.

Lemma npindices_iff : forall m : GMultiIndex, npindices m = true <-> std_multi_index m.
Proof.
  fix IH 1. intros [e|members].
  - rewrite npindices_single. split; [apply std_single | now inversion 1].
  - simpl. split.
    + intros Hall. apply std_nested.
      induction members as [|m l IHl]; simpl in *; [constructor|].
      apply andb_true_iff in Hall as [Hm Hl].
      constructor; [now apply IH | now apply IHl].
    + intros H. inversion H as [|? Hall]; subst. clear H.
      induction members as [|m l IHl]; simpl; [reflexivity|].
      inversion Hall; subst. apply andb_true_iff.
      split; [now apply IH | now apply IHl].
Qed.

Lemma plain_index_std_entry (e : GIndex) : plain_index e = true -> std_entry e.
Proof.
  destruct e as [i|x|start stop step|t|re im]; simpl; try discriminate; [auto|].
  destruct start, stop, step; simpl; try discriminate; auto.
Qed.

(** X1. [npindices] holds exactly of an int, of a slice whose components
    are [None], ints, zero floats, zero complex numbers or empty strings,
    and of a tuple (of any depth, the empty one included) of what it holds
    of.  So it holds of every tuple of plain integers and standard slices,
    but also of [slice(0.0, None)] and [slice('', None)], which
    [GIndexObject.std] does not treat as standard slices. *)
Theorem npindices_spec :
  (forall multi_index : GMultiIndex,
      npindices multi_index = true <-> std_multi_index multi_index)
  /\ (forall entries : list GIndex,
         forallb plain_index entries = true ->
         npindices (Nested (map Single entries)) = true).
Proof.
  split; [exact npindices_iff|].
  intros entries Hplain. apply npindices_iff, std_nested.
  rewrite forallb_forall in Hplain. apply Forall_forall.
  intros m Hin. apply in_map_iff in Hin as (e & <- & He).
  apply std_single, plain_index_std_entry, Hplain, He.
Qed.

(** ** [Parameters.__init__] with a name list *)

Lemma first_missing_None (d : dict string (list float)) (names : list string) :
  first_missing d names = None -> forall name, In name names -> In name (dict_keys d).
Proof.
  unfold first_missing. intros Hnone name Hin.
  pose proof (find_none _ _ Hnone name Hin) as Hname. simpl in Hname.
  destruct (dict_get d name) eqn:Hget; [|discriminate].
  eapply dict_get_Some_In; eassumption.
Qed.

Lemma init_items_missing (d : dict string (list float)) (names : list string)
      (name : string) :
  first_missing d names = Some name ->
  mapM (fun name => v <- dict_getitem d name ;; Ok (name, v)) names
  = Raise (KeyError name).
Proof.
  unfold first_missing. induction names as [|n names IH]; simpl; [discriminate|].
  unfold dict_getitem at 1. destruct (dict_get d n) as [v|] eqn:Hget; simpl.
  - intros Hfind. now rewrite IH.
  - intros [= <-]. reflexivity.
Qed.

(** X2. With an explicit name list the constructor raises KeyError for the
    first listed name that is no key of the mapping; when every listed
    name is a key it returns, the name list is the given one, and each
    listed name has the values the mapping gives it. *)
Theorem init_with_names (d : dict string (list float)) (names : list string) :
  match first_missing d names with
  | Some name => Parameters.__init__ d (Some names) = Raise (KeyError name)
  | None =>
      exists p,
        Parameters.__init__ d (Some names) = Ok p
        /\ Parameters.paramnames_list p = names
        /\ forall name, In name names ->
             Parameters.getitem_str p name = dict_getitem d name
  end.
Proof.
  destruct (first_missing d names) as [name|] eqn:Hmiss.
  - unfold Parameters.__init__. now rewrite (init_items_missing _ _ Hmiss).
  - pose proof (first_missing_None _ _ Hmiss) as Hsub.
    destruct (init_total d (Some names) Hsub) as [p Hp].
    exists p. split; [assumption|].
    destruct (init_inv _ _ Hp) as (items & Hitems & Hnames & Hvals).
    split; [assumption|]. intros name Hin.
    unfold Parameters.getitem_str, dict_getitem. rewrite Hvals.
    pose proof (mapM_Ok _ _ Hitems) as Hall.
    destruct (Forall2_In_l _ Hall Hin) as [[n v] Hnv].
    pose proof (Forall2_combine_In _ _ Hall Hnv) as Hn. simpl in Hn.
    unfold dict_getitem in Hn. destruct (dict_get d name) as [v'|] eqn:Hget;
      simpl in Hn; [|discriminate].
    injection Hn as <- <-.
    assert (Hin_items : In (name, v') items) by (eapply in_combine_r; eassumption).
    unfold dict_of_items. rewrite (@assign_all_functional _ _ _ items [] name v');
      [reflexivity| |assumption].
    intros k v1 v2 H1 H2.
    assert (Hk : forall k v, In (k, v) items -> dict_get d k = Some v).
    { clear - Hall. induction Hall as [|n0 [k0 v0] l1 l2 H0 _ IH]; simpl;
        [contradiction|].
      intros k v [[= -> ->]|Hin]; [|auto].
      unfold dict_getitem in H0. destruct (dict_get d n0) eqn:E; simpl in H0;
        [injection H0 as <- <-; exact E | discriminate]. }
    apply Hk in H1, H2. congruence.
Qed.

(** ** The position maps of [Parameters] *)

Lemma dict_get_enumerate_from {A} (l : list A) (s i : nat) :
  dict_get (enumerate_from s l) i
  = if Nat.leb s i then nth_error l (i - s) else None.
Proof.
  revert s. induction l as [|a l IH]; intros s; simpl.
  - destruct (Nat.leb s i); [|reflexivity]. now destruct (i - s)%nat.
  - destruct (Nat.eqb_spec i s) as [->|Hne].
    + now rewrite Nat.leb_refl, Nat.sub_diag.
    + rewrite IH. destruct (Nat.leb_spec s i) as [Hle|Hlt].
      * destruct (Nat.leb_spec (S s) i) as [_|Hlt]; [|lia].
        replace (i - s)%nat with (S (i - S s)) by lia. reflexivity.
      * destruct (Nat.leb_spec (S s) i) as [Hle|_]; [lia|reflexivity].
Qed.

Lemma keys_enumerate_from {A} (l : list A) (s : nat) :
  dict_keys (enumerate_from s l) = seq s (List.length l).
Proof.
  revert s. induction l as [|a l IH]; intros s; simpl; [reflexivity|].
  now rewrite IH.
Qed.

Lemma dict_of_items_enumerate {A} (l : list A) :
  dict_of_items (enumerate l) = enumerate l.
Proof.
  apply dict_of_items_NoDup. unfold enumerate. rewrite keys_enumerate_from.
  apply seq_NoDup.
Qed.

Lemma dict_get_swap_enumerate_from (l : list string) (s i : nat) (x : string) :
  NoDup l ->
  (dict_get (map (fun ix => (snd ix, fst ix)) (enumerate_from s l)) x = Some i
   <-> (s <= i)%nat /\ nth_error l (i - s) = Some x).
Proof.
  revert s. induction l as [|a l IH]; intros s Hnd; simpl.
  - split; [discriminate|]. intros [_ H]. now destruct (i - s)%nat.
  - inversion Hnd as [|? ? Hnin Hnd']; subst.
    destruct (String.eqb_spec x a) as [->|Hne].
    + split.
      * intros [= <-]. rewrite Nat.sub_diag. auto.
      * intros [Hle Hnth]. destruct (i - s)%nat as [|k] eqn:E.
        -- f_equal. lia.
        -- simpl in Hnth. apply nth_error_In in Hnth. contradiction.
    + rewrite IH by assumption. split.
      * intros [Hle Hnth]. split; [lia|].
        replace (i - s)%nat with (S (i - S s)) by lia. exact Hnth.
      * intros [Hle Hnth]. destruct (i - s)%nat as [|k] eqn:E; simpl in Hnth.
        -- congruence.
        -- split; [lia|]. replace (i - S s)%nat with k by lia. exact Hnth.
Qed.

Lemma mapM_enumerated {A B} (f : A -> result B) (h : nat -> A -> B) (l : list A) :
  forall s,
    (forall k a, nth_error l k = Some a -> f a = Ok (h (s + k)%nat a)) ->
    mapM f l = Ok (map (fun ka => h (fst ka) (snd ka)) (enumerate_from s l)).
Proof.
  induction l as [|a l IH]; intros s Hf; simpl; [reflexivity|].
  rewrite (Hf 0%nat a eq_refl), Nat.add_0_r. simpl.
  rewrite (IH (S s)); [reflexivity|].
  intros k a' Hk. rewrite (Hf (S k) a' Hk). f_equal. f_equal. lia.
Qed.

Lemma map_enumerate_from_snd {A B} (g : A -> B) (l : list A) (s : nat) :
  map (fun ka => (fst ka, g (snd ka))) (enumerate_from s l) = enumerate_from s (map g l).
Proof.
  revert s. induction l as [|a l IH]; intros s; simpl; [reflexivity|]. now rewrite IH.
Qed.

(** The three position maps a successful construction stores. *)
Lemma init_inv_maps (d : dict string (list float)) (names_opt : option (list string))
      (p : Parameters.t) :
  Parameters.__init__ d names_opt = Ok p ->
  let names := Parameters.paramnames_list p in
  Parameters.index_by_name p
  = dict_of_items (map (fun ix => (snd ix, fst ix)) (enumerate names))
  /\ Parameters.name_by_index p = dict_of_items (enumerate names)
  /\ exists by_index,
      mapM (fun nv => i <- dict_getitem (Parameters.index_by_name p) (fst nv) ;;
                      Ok (i, snd nv))
           (Parameters.paramvals_by_name p) = Ok by_index
      /\ Parameters.paramvals_by_index p = dict_of_items by_index.
Proof.
  unfold Parameters.__init__.
  set (names := match names_opt with Some l => l | None => dict_keys d end).
  intros Hinit.
  destruct (mapM _ names) as [items|] eqn:Hitems; simpl in Hinit; [|discriminate].
  destruct (mapM _ (dict_of_items items)) as [by_index|] eqn:Hby; simpl in Hinit;
    [|discriminate].
  injection Hinit as <-. simpl. eauto.
Qed.

(** X3. After construction with distinct names, [index_by_name] and
    [name_by_index] are inverse to each other and agree with the name
    list, and [paramvals_by_index] holds at each position the values of the
    slot of that name. *)
Theorem init_position_maps (d : dict string (list float))
        (names_opt : option (list string)) (p : Parameters.t) :
  Parameters.__init__ d names_opt = Ok p ->
  NoDup (Parameters.paramnames_list p) ->
  forall (i : nat) (name : string),
    (dict_get (Parameters.index_by_name p) name = Some i
     <-> nth_error (Parameters.paramnames_list p) i = Some name)
    /\ (dict_get (Parameters.name_by_index p) i = Some name
        <-> nth_error (Parameters.paramnames_list p) i = Some name)
    /\ (nth_error (Parameters.paramnames_list p) i = Some name ->
        exists vals,
          dict_get (Parameters.paramvals_by_index p) i = Some vals
          /\ dict_get (Parameters.paramvals_by_name p) name = Some vals).
Proof.
  intros Hinit Hnd.
  destruct (init_inv_maps _ _ Hinit) as (Hibn & Hnbi & by_index & Hby & Hpbi).
  destruct (init_inv _ _ Hinit) as (items & Hitems & Hnames & Hvals).
  set (names := Parameters.paramnames_list p) in *.
  assert (Hibn' : Parameters.index_by_name p
                  = map (fun ix => (snd ix, fst ix)) (enumerate names)).
  { rewrite Hibn. apply dict_of_items_NoDup. unfold dict_keys, enumerate.
    rewrite map_map. simpl. rewrite (map_ext _ snd) by reflexivity.
    now rewrite map_snd_enumerate_from. }
  assert (Hindex : forall i name,
             dict_get (Parameters.index_by_name p) name = Some i
             <-> nth_error names i = Some name).
  { intros i name. rewrite Hibn'. unfold enumerate.
    rewrite dict_get_swap_enumerate_from by assumption.
    rewrite Nat.sub_0_r. split; [tauto|]. split; [lia|assumption]. }
  assert (Hfst : map fst items = names).
  { rewrite <- Hnames in Hitems. fold names in Hitems.
    apply mapM_Ok in Hitems. clear - Hitems.
    induction Hitems as [|n [k v] l1 l2 H0 _ IH]; simpl; [reflexivity|].
    f_equal; [|assumption].
    destruct (dict_getitem d n); simpl in H0; [|discriminate]. congruence. }
  assert (Hordered : Parameters.paramvals_by_name p = items).
  { rewrite Hvals. apply dict_of_items_NoDup. unfold dict_keys. now rewrite Hfst. }
  assert (Hby' : by_index = enumerate (map snd items)).
  { rewrite Hordered in Hby.
    rewrite (@mapM_enumerated _ _ _ (fun k nv => (k, snd nv)) items 0%nat) in Hby.
    - injection Hby as <-. unfold enumerate. apply map_enumerate_from_snd.
    - intros k [n v] Hk. simpl.
      assert (Hn : nth_error names k = Some n).
      { rewrite <- Hfst. now rewrite nth_error_map, Hk. }
      apply Hindex in Hn. unfold dict_getitem. now rewrite Hn. }
  intros i name. split; [apply Hindex|]. split.
  - rewrite Hnbi, dict_of_items_enumerate. unfold enumerate.
    rewrite dict_get_enumerate_from. simpl. now rewrite Nat.sub_0_r.
  - intros Hnth.
    assert (Hitem : exists v, nth_error items i = Some (name, v)).
    { rewrite <- Hfst, nth_error_map in Hnth.
      destruct (nth_error items i) as [[n v]|]; simpl in Hnth; [|discriminate].
      injection Hnth as ->. eauto. }
    destruct Hitem as [v Hv]. exists v. split.
    + rewrite Hpbi, Hby', dict_of_items_enumerate. unfold enumerate.
      rewrite dict_get_enumerate_from. simpl.
      now rewrite Nat.sub_0_r, nth_error_map, Hv.
    + rewrite Hordered. apply dict_get_NoDup_In.
      * unfold dict_keys. now rewrite Hfst.
      * eapply nth_error_In. eassumption.
Qed.

Lemma init_position_maps_witness :
  (dict_get (Parameters.index_by_name ab_parameters) "b"%string = Some 1%nat
   <-> nth_error (Parameters.paramnames_list ab_parameters) 1 = Some "b"%string)
  /\ (dict_get (Parameters.name_by_index ab_parameters) 1%nat = Some "b"%string
      <-> nth_error (Parameters.paramnames_list ab_parameters) 1 = Some "b"%string)
  /\ (nth_error (Parameters.paramnames_list ab_parameters) 1 = Some "b"%string ->
      exists vals,
        dict_get (Parameters.paramvals_by_index ab_parameters) 1%nat = Some vals
        /\ dict_get (Parameters.paramvals_by_name ab_parameters) "b"%string = Some vals).
Proof.
  apply (@init_position_maps ab_vals None ab_parameters).
  - vm_compute. reflexivity.
  - exact NoDup_ab.
Defined.

(** ** The constructor of [NamedSlotsNdarray] and [counts] *)

Lemma mapM_getitem_keys (d0 d : dict string (list float)) :
  (forall k v, In (k, v) d -> dict_get d0 k = Some v) ->
  mapM (dict_getitem d0) (dict_keys d) = Ok (dict_values d).
Proof.
  induction d as [|[k v] d IH]; intros Hall; simpl; [reflexivity|].
  unfold dict_getitem at 1. rewrite (Hall k v) by now left. simpl.
  rewrite IH; [reflexivity|]. intros k' v' Hin. apply Hall. now right.
Qed.

Lemma paramvals_list_of_mapping (d : dict string (list float)) (p : Parameters.t) :
  NoDup (dict_keys d) ->
  Parameters.__init__ d None = Ok p ->
  Parameters.paramvals_list p = Ok (dict_values d).
Proof.
  intros Hnd Hinit.
  destruct (init_from_mapping d) as (p0 & Hp0 & Hnames & Hvals).
  assert (p0 = p) by congruence. subst p0. specialize (Hvals Hnd).
  unfold Parameters.paramvals_list. rewrite Hnames, Hvals.
  apply mapM_getitem_keys. intros k v Hin. now apply dict_get_NoDup_In.
Qed.

(** X4. The constructor fails only on a shape mismatch: for a mapping whose
    leading dimensions do not have the lengths of its value sets it raises
    ValueError; otherwise it returns the array with the given data and
    mapping, and the [counts] of its [parameters] are the leading
    [slot_count] dimensions of the data. *)
Theorem new_checks_shape (input_array : ndarray)
        (values_by_name : dict string (list float)) :
  NoDup (dict_keys values_by_name) ->
  if NamedSlotsNdarray.shape_eqb
       (firstn (List.length values_by_name) (shape input_array))
       (map (fun nv => List.length (snd nv)) values_by_name)
  then exists X,
      NamedSlotsNdarray.__new__ input_array values_by_name = Ok X
      /\ NamedSlotsNdarray.data X = input_array
      /\ Parameters.paramvals_by_name (NamedSlotsNdarray.parameters X) = values_by_name
      /\ Parameters.counts (NamedSlotsNdarray.parameters X)
         = Ok (firstn (NamedSlotsNdarray.slot_count X) (shape input_array))
  else NamedSlotsNdarray.__new__ input_array values_by_name = Raise ValueError_shape.
Proof.
  intros Hnd. unfold NamedSlotsNdarray.__new__.
  destruct (NamedSlotsNdarray.shape_eqb _ _) eqn:Hshape; simpl; [|reflexivity].
  apply shape_eqb_eq in Hshape.
  destruct (init_from_mapping values_by_name) as (p & Hp & Hnames & Hvals).
  rewrite Hp. simpl. eexists. split; [reflexivity|]. simpl.
  specialize (Hvals Hnd). repeat split; [assumption|].
  unfold Parameters.counts, NamedSlotsNdarray.slot_count. simpl.
  rewrite (@paramvals_list_of_mapping _ _ Hnd Hp), Hvals, Hshape. simpl.
  unfold dict_values. now rewrite map_map.
Qed.

Lemma new_checks_shape_witness :
  exists X,
    NamedSlotsNdarray.__new__ square_array ab_vals = Ok X
    /\ NamedSlotsNdarray.data X = square_array
    /\ Parameters.paramvals_by_name (NamedSlotsNdarray.parameters X) = ab_vals
    /\ Parameters.counts (NamedSlotsNdarray.parameters X)
       = Ok (firstn (NamedSlotsNdarray.slot_count X) (shape square_array)).
Proof. exact (@new_checks_shape square_array ab_vals NoDup_ab). Defined.

(** ** [get_index] and lookups of NaN *)

(** X5. [get_index(value, slotindex)] returns a position exactly when the
    slot exists and the position is the closest one to [value] in its value
    set; unlike [idx_for_value] it has no tolerance test, so on a slot with
    at least one value it always returns. *)
Theorem get_index_closest (self : Parameters.t) (value : float) (slotindex : Z) :
  (forall loc : nat,
      Parameters.get_index self value slotindex = Ok loc <->
      exists vals,
        Parameters.getitem_int self slotindex = Ok vals
        /\ closest_position vals value loc)
  /\ (forall vals,
         Parameters.getitem_int self slotindex = Ok vals -> vals <> [] ->
         exists loc, Parameters.get_index self value slotindex = Ok loc).
Proof.
  unfold Parameters.get_index, closest_position. split.
  - intros loc. destruct (Parameters.getitem_int self slotindex) as [vals|e]; simpl.
    + rewrite argmin_iff. split; [eauto|]. intros (vals' & [= <-] & H). exact H.
    + split; [discriminate|]. intros (vals' & H & _). discriminate.
  - intros vals -> Hne. simpl. apply argmin_nonempty.
    unfold abs_diff. destruct vals; [congruence|discriminate].
Qed.

Lemma isclose_nan (x value : float) : is_nan value = true -> isclose x value = false.
Proof.
  intros Hnan. apply FloatOrder.is_nan_spec in Hnan.
  assert (Hdiff : Prim2SF (abs (value - x)) = S754_nan).
  { rewrite abs_spec, sub_spec, Hnan. unfold SF64sub. reflexivity. }
  assert (Hleb : forall y, (abs (value - x) <=? y)%float = false).
  { intros y. rewrite leb_spec, Hdiff. reflexivity. }
  unfold isclose. rewrite eqb_spec, Hnan.
  replace (SFeqb (Prim2SF x) S754_nan) with false
    by (unfold SFeqb; now destruct (Prim2SF x)).
  destruct (is_infinity x || is_infinity value); [reflexivity|].
  now rewrite !Hleb.
Qed.

(** X6. A lookup of NaN never finds a position: [idx_for_value] raises
    ValueError whatever the value set is. *)
Theorem idx_for_value_nan (value : float) (param_vals : list float) :
  is_nan value = true ->
  idx_for_value value param_vals
  = Raise (match param_vals with
           | [] => ValueError_empty_argmin
           | _ :: _ => ValueError_no_matching_entry
           end).
Proof.
  intros Hnan. unfold idx_for_value.
  destruct param_vals as [|x0 rest]; [reflexivity|].
  destruct (@argmin_nonempty (abs_diff (x0 :: rest) value)) as [loc Hloc];
    [discriminate|].
  rewrite Hloc. simpl.
  destruct (nth_error (x0 :: rest) loc) as [x|] eqn:Hx.
  - now rewrite isclose_nan.
  - apply argmin_closest in Hloc. apply nth_error_None in Hx.
    assert (loc < List.length (abs_diff (x0 :: rest) value))%nat.
    { destruct Hloc as [[_ (m & H & _)]|(m & H & _)];
        apply nth_error_Some; rewrite H; discriminate. }
    unfold abs_diff in *. rewrite length_map in *. lia.
Qed.

Lemma idx_for_value_nan_witness :
  idx_for_value nan param1_vals = Raise ValueError_no_matching_entry.
Proof. apply (@idx_for_value_nan nan param1_vals). reflexivity. Defined.

(** ** [GIndexObject.std] *)

Lemma idx_for_value_Ok (value : float) (param_vals : list float) (loc : nat) :
  idx_for_value value param_vals = Ok loc ->
  closest_position param_vals value loc
  /\ exists x, nth_error param_vals loc = Some x /\ isclose x value = true.
Proof.
  unfold idx_for_value, closest_position.
  destruct (argmin (abs_diff param_vals value)) as [l|e] eqn:Hargmin; simpl;
    [|discriminate].
  destruct (nth_error param_vals l) as [x|] eqn:Hx; [|discriminate].
  destruct (isclose x value) eqn:Hclose; [|discriminate].
  intros [= <-]. split; [now apply argmin_closest | eauto].
Qed.

Lemma getitem_int_nat (p : Parameters.t) (slot : nat) (vals : list float) :
  Parameters.getitem_int p (Z.of_nat slot) = Ok vals ->
  exists name,
    nth_error (Parameters.paramnames_list p) slot = Some name
    /\ dict_get (Parameters.paramvals_by_name p) name = Some vals.
Proof.
  unfold Parameters.getitem_int. rewrite list_getitem_nat.
  destruct (nth_error (Parameters.paramnames_list p) slot) as [name|]; simpl;
    [|discriminate].
  unfold dict_getitem.
  destruct (dict_get (Parameters.paramvals_by_name p) name) as [v|] eqn:Hget;
    [|discriminate].
  intros [= <-]. exists name. auto.
Qed.

(** X7. When a value-based entry [x] at position [slot] is accepted, its
    standard index is a position of the value set of the slot at [slot],
    the closest one to [x], and the value there is close to [x] in the
    sense of [math.isclose]. *)
Theorem std_value_entry_sound (p : Parameters.t) (slot : nat) (x : float)
        (n : option string) (ty : gtype) (ix : NpIndex) :
  GIndexObject.std p slot (GFloat x) = Ok (n, ty, ix) ->
  n = None /\ ty = T_val
  /\ exists name vals loc v,
      nth_error (Parameters.paramnames_list p) slot = Some name
      /\ dict_get (Parameters.paramvals_by_name p) name = Some vals
      /\ ix = NpInt (Z.of_nat loc)
      /\ nth_error vals loc = Some v
      /\ isclose v x = true
      /\ closest_position vals x loc.
Proof.
  simpl.
  destruct (Parameters.getitem_int p (Z.of_nat slot)) as [vals|] eqn:Hvals; simpl;
    [|discriminate].
  destruct (idx_for_value x vals) as [loc|] eqn:Hloc; simpl; [|discriminate].
  intros [= <- <- <-]. repeat split.
  destruct (getitem_int_nat _ _ Hvals) as (name & Hname & Hget).
  destruct (idx_for_value_Ok _ _ Hloc) as (Hclosest & v & Hv & Hclose).
  exists name, vals, loc, v. auto 10.
Qed.

Lemma std_value_entry_sound_witness :
  (None : option string) = None /\ T_val = T_val
  /\ exists name vals loc v,
      nth_error (Parameters.paramnames_list ab_parameters) 1 = Some name
      /\ dict_get (Parameters.paramvals_by_name ab_parameters) name = Some vals
      /\ NpInt 1 = NpInt (Z.of_nat loc)
      /\ nth_error vals loc = Some v
      /\ isclose v 4.0%float = true
      /\ closest_position vals 4.0%float loc.
Proof.
  apply (@std_value_entry_sound ab_parameters 1 4.0%float None T_val (NpInt 1)).
  vm_compute. reflexivity.
Defined.

(** X8. What [std] returns for each kind of entry: an int is its own
    index; a value-based entry gives an int; a name-based slice stores its
    name and gives [None], an int, or a slice with start and stop but never
    a step; any other slice gives a slice whose step is the given int or
    [None]; nothing else is accepted, and a complex entry never is. *)
Theorem std_result_shape (p : Parameters.t) (slot : nat) (e : GIndex)
        (n : option string) (ty : gtype) (ix : NpIndex) :
  GIndexObject.std p slot e = Ok (n, ty, ix) ->
  match e with
  | GInt i => n = None /\ ty = T_int /\ ix = NpInt i
  | GFloat _ => n = None /\ ty = T_val /\ exists loc, ix = NpInt (Z.of_nat loc)
  | GSlice (SStr name) _ _ =>
      n = Some name /\ ty = T_slice_name
      /\ (ix = NpNone \/ (exists i, ix = NpInt i)
          \/ exists start stop, ix = NpSlice start (Some stop) None)
  | GSlice _ _ step =>
      n = None /\ ty = T_slice /\ is_int step || negb (truthy step) = true
      /\ exists start stop, ix = NpSlice start stop (np_entry step)
  | GStr _ | GComplex _ _ => False
  end.
Proof.
  destruct e as [i|x|start stop step|t|re im]; simpl.
  5: { destruct (Parameters.getitem_int p (Z.of_nat slot)); simpl; [|discriminate].
       rewrite idx_for_value_complex. discriminate. }
  - intros [= <- <- <-]. auto.
  - destruct (Parameters.getitem_int p (Z.of_nat slot)); simpl; [|discriminate].
    destruct (idx_for_value x a); simpl; [|discriminate].
    intros [= <- <- <-]. eauto.
  - destruct start as [|i|x|name|re im].
    4: { destruct (GIndexObject.std_slice_entry p slot stop) as [a|]; simpl;
           [|discriminate].
         destruct (GIndexObject.std_slice_entry p slot step) as [[j|]|]; simpl;
           try discriminate; intros [= <- <- <-]; repeat split; eauto.
         destruct a; eauto. }
    all: destruct (GIndexObject.std_slice_entry p slot _) as [a|]; simpl;
      [|discriminate];
      destruct (GIndexObject.std_slice_entry p slot stop) as [b|]; simpl;
      [|discriminate];
      destruct step; simpl; try discriminate;
      intros [= <- <- <-]; repeat split; eauto.
  - discriminate.
Qed.

Lemma std_result_shape_witness :
  Some "flux"%string = Some "flux"%string /\ T_slice_name = T_slice_name
  /\ (NpSlice None (Some 2%Z) None = NpNone
      \/ (exists i, NpSlice None (Some 2%Z) None = NpInt i)
      \/ exists start stop, NpSlice None (Some 2%Z) None = NpSlice start (Some stop) None).
Proof.
  apply (@std_result_shape ab_parameters 0 (GSlice (SStr "flux") SNone (SInt 2))
           (Some "flux"%string) T_slice_name (NpSlice None (Some 2%Z) None)).
  reflexivity.
Defined.

Lemma bind_raises {A B} (r : result A) (k : A -> result B) :
  (forall a, exists err, k a = Raise err) -> exists err, bind r k = Raise err.
Proof. intros Hk. destruct r as [a|e]; simpl; eauto. Qed.

(** X9. A slice that is not name-based and whose step is a float, a
    complex or a string is never accepted: [std] raises, and it raises the
    TypeError about [slice.step] when start and stop are ints or [None]. *)
Theorem std_rejects_step (p : Parameters.t) (slot : nat)
        (start stop step : GSliceEntry) :
  name_based (GSlice start stop step) = false ->
  non_int_step step = true ->
  (exists err, GIndexObject.std p slot (GSlice start stop step) = Raise err)
  /\ (plain_entry start = true -> plain_entry stop = true ->
      GIndexObject.std p slot (GSlice start stop step) = Raise TypeError_step).
Proof.
  intros Hname Hstep. split.
  - destruct start as [|i|y|name|re im]; try discriminate;
      destruct step; try discriminate;
      cbn [GIndexObject.std];
      (apply bind_raises; intros ?; apply bind_raises; intros ?; simpl; eauto).
  - intros Hs Ht.
    destruct start, stop; simpl in *; try discriminate;
      destruct step; simpl in *; try discriminate; reflexivity.
Qed.

Lemma std_rejects_step_witness :
  (exists err,
      GIndexObject.std ab_parameters 0 (GSlice (SInt 0) (SInt 2) (SFloat 2.0%float))
      = Raise err)
  /\ (plain_entry (SInt 0) = true -> plain_entry (SInt 2) = true ->
      GIndexObject.std ab_parameters 0 (GSlice (SInt 0) (SInt 2) (SFloat 2.0%float))
      = Raise TypeError_step).
Proof.
  apply (@std_rejects_step ab_parameters 0 (SInt 0) (SInt 2) (SFloat 2.0%float));
    reflexivity.
Defined.

(** X10. Value-based entries need a named slot at their position: at a
    position beyond the name list, a float entry and a slice with a float
    bound raise IndexError. *)
Theorem value_entry_needs_slot (p : Parameters.t) (slot : nat) (x : float)
        (stop step : GSliceEntry) :
  (List.length (Parameters.paramnames_list p) <= slot)%nat ->
  GIndexObject.std p slot (GFloat x) = Raise IndexError
  /\ GIndexObject.std p slot (GSlice (SFloat x) stop step) = Raise IndexError
  /\ GIndexObject.std_slice_entry p slot (SFloat x) = Raise IndexError.
Proof.
  intros Hslot.
  assert (Hget : Parameters.getitem_int p (Z.of_nat slot) = Raise IndexError).
  { unfold Parameters.getitem_int. rewrite list_getitem_nat.
    assert (Hnone : nth_error (Parameters.paramnames_list p) slot = None)
      by now apply nth_error_None.
    now rewrite Hnone. }
  simpl. rewrite Hget. auto.
Qed.

Lemma value_entry_needs_slot_witness :
  GIndexObject.std ab_parameters 2 (GFloat 1.0%float) = Raise IndexError
  /\ GIndexObject.std ab_parameters 2 (GSlice (SFloat 1.0%float) SNone SNone)
     = Raise IndexError
  /\ GIndexObject.std_slice_entry ab_parameters 2 (SFloat 1.0%float) = Raise IndexError.
Proof.
  apply (@value_entry_needs_slot ab_parameters 2 1.0%float SNone SNone).
  simpl. lia.
Defined.

(** ** Conversion of multi-indices *)

Lemma for_enumerate_app {A St} (body : St -> nat -> A -> result St) (l1 l2 : list A) :
  forall i acc,
    for_enumerate body i (l1 ++ l2) acc
    = (acc' <- for_enumerate body i l1 acc ;;
       for_enumerate body (i + List.length l1) l2 acc').
Proof.
  induction l1 as [|a l1 IH]; intros i acc; simpl.
  - now rewrite Nat.add_0_r.
  - destruct (body acc i a) as [acc'|e]; simpl; [|reflexivity].
    rewrite IH. now rewrite Nat.add_succ_r.
Qed.

Lemma list_setitem_map_seq {A} (f : nat -> A) (n : nat) (v : A) :
  forall s j,
    (j < n)%nat ->
    list_setitem (map f (seq s n)) j v
    = Ok (map (fun k => if Nat.eqb k (s + j) then v else f k) (seq s n)).
Proof.
  induction n as [|n IH]; intros s j Hj; [lia|]. simpl.
  destruct j as [|j].
  - rewrite Nat.add_0_r, Nat.eqb_refl. f_equal. f_equal.
    apply map_ext_in. intros k Hk. apply in_seq in Hk.
    destruct (Nat.eqb_spec k s); [lia|reflexivity].
  - rewrite (IH (S s) j) by lia. simpl.
    destruct (Nat.eqb_spec s (s + S j)); [lia|].
    f_equal. f_equal. apply map_ext. intros k.
    now replace (s + S j)%nat with (S (s + j)) by lia.
Qed.

Lemma repeat_map_seq {A} (x : A) (n s : nat) :
  repeat x n = map (fun _ => x) (seq s n).
Proof.
  revert s. induction n as [|n IH]; intros s; simpl; [reflexivity|].
  now rewrite (IH (S s)).
Qed.

Lemma name_based_conversion_eq (self : NamedSlotsNdarray.t)
      (multi_index : list GIndexObject.t) :
  let index_by_name := Parameters.index_by_name (NamedSlotsNdarray.parameters self) in
  Forall (fun g =>
            GIndexObject.type g = T_slice_name
            /\ exists name j,
                GIndexObject.name g = Some name
                /\ dict_get index_by_name name = Some j
                /\ (j < NamedSlotsNdarray.slot_count self)%nat)
         multi_index ->
  NamedSlotsNdarray._name_based_to_std_index_tuple self multi_index
  = Ok (map (named_index index_by_name multi_index)
            (seq 0 (NamedSlotsNdarray.slot_count self))).
Proof.
  intros ibn. unfold NamedSlotsNdarray._name_based_to_std_index_tuple.
  fold ibn. set (n := NamedSlotsNdarray.slot_count self).
  induction multi_index as [|g l IH] using rev_ind; intros Hall.
  - simpl. f_equal. unfold named_index. simpl. apply repeat_map_seq.
  - apply Forall_app in Hall as [Hl Hg]. inversion Hg as [|? ? Hg0 _]; subst.
    destruct Hg0 as (Hty & name & j & Hname & Hj & Hlt).
    rewrite for_enumerate_app, (IH Hl). simpl.
    rewrite Hty, Hname. simpl. unfold dict_getitem. rewrite Hj. simpl.
    rewrite list_setitem_map_seq by assumption. simpl. f_equal.
    apply map_ext. intros k. unfold named_index.
    rewrite rev_app_distr. simpl. unfold names_slot at 2.
    rewrite Hname, Hj. rewrite (Nat.eqb_sym k j).
    now destruct (Nat.eqb j k).
Qed.

(** X11. For a multi-index whose entries are all name-based and name
    existing slots, [_name_based_to_std_index_tuple] returns one index per
    slot: at the position of a named slot the index of the (last) entry
    naming it, and the full slice everywhere else. *)
Theorem name_based_conversion (self : NamedSlotsNdarray.t)
        (multi_index : list GIndexObject.t) :
  let index_by_name := Parameters.index_by_name (NamedSlotsNdarray.parameters self) in
  Forall (fun g =>
            GIndexObject.type g = T_slice_name
            /\ exists name j,
                GIndexObject.name g = Some name
                /\ dict_get index_by_name name = Some j
                /\ (j < NamedSlotsNdarray.slot_count self)%nat)
         multi_index ->
  NamedSlotsNdarray._name_based_to_std_index_tuple self multi_index
  = Ok (map (named_index index_by_name multi_index)
            (seq 0 (NamedSlotsNdarray.slot_count self))).
Proof. exact (@name_based_conversion_eq self multi_index). Qed.

Lemma name_based_conversion_witness :
  NamedSlotsNdarray._name_based_to_std_index_tuple some_labeled flux_then_ng
  = Ok (map (named_index (Parameters.index_by_name ng_flux_parameters) flux_then_ng)
            (seq 0 (NamedSlotsNdarray.slot_count some_labeled))).
Proof.
  apply (@name_based_conversion some_labeled flux_then_ng).
  repeat constructor; simpl.
  - exists "flux"%string, 1%nat. repeat split. vm_compute. lia.
  - exists "ng"%string, 0%nat. repeat split. vm_compute. lia.
Defined.

Lemma init_type (e : GIndex) (p : Parameters.t) (slot : nat) (g : GIndexObject.t) :
  GIndexObject.__init__ e p slot = Ok g ->
  gtype_eqb (GIndexObject.type g) T_slice_name = name_based e.
Proof.
  unfold GIndexObject.__init__.
  destruct (GIndexObject.std p slot e) as [[[n ty] ix]|] eqn:Hstd; simpl; [|discriminate].
  intros [= <-]. simpl. eapply std_type. eassumption.
Qed.

Lemma init_types (p : Parameters.t) (entries : list GIndex) :
  forall (i : nat) (gidx : list GIndexObject.t),
    mapM (fun se => GIndexObject.__init__ (snd se) p (fst se)) (enumerate_from i entries)
    = Ok gidx ->
    Forall2 (fun e g => gtype_eqb (GIndexObject.type g) T_slice_name = name_based e)
            entries gidx.
Proof.
  induction entries as [|e entries IH]; intros i gidx; simpl.
  - intros [= <-]. constructor.
  - destruct (GIndexObject.__init__ e p i) as [g|] eqn:Hg; simpl; [|discriminate].
    destruct (mapM _ (enumerate_from (S i) entries)) as [gs|] eqn:Hgs; simpl;
      [|discriminate].
    intros [= <-]. constructor; [eapply init_type; eassumption | eapply IH; eassumption].
Qed.

(** X12. A multi-index whose first entry is name-based and that holds an
    entry that is not name-based never returns: indexing raises. *)
Theorem name_first_mixed_raises (self : NamedSlotsNdarray.t)
        (e : GIndex) (rest : list GIndex) :
  name_based e = true ->
  existsb (fun e' => negb (name_based e')) rest = true ->
  exists err, NamedSlotsNdarray.__getitem__ self (Tuple (e :: rest)) = Raise err.
Proof.
  intros He Hrest. unfold NamedSlotsNdarray.__getitem__, enumerate.
  destruct (mapM _ (enumerate_from 0 (e :: rest))) as [gidx|err] eqn:Hgidx;
    [|simpl; eauto].
  apply init_types in Hgidx.
  inversion Hgidx as [|? g ? gs Hg Hgs]; subst.
  cbn [bind]. unfold NamedSlotsNdarray._to_std_index_tuple.
  rewrite Hg, He.
  destruct (@name_based_first_rejects self (g :: gs)) as [err Herr].
  - apply Exists_cons_tl. apply existsb_exists in Hrest as (e' & Hin & He').
    clear - Hgs Hin He'. induction Hgs as [|e0 g0 l1 l2 H0 _ IH]; [contradiction|].
    destruct Hin as [->|Hin].
    + apply Exists_cons_hd. intros Hty. rewrite Hty in H0. simpl in H0.
      rewrite <- H0 in He'. discriminate.
    + apply Exists_cons_tl. auto.
  - rewrite Herr. simpl. eauto.
Qed.

Lemma name_first_mixed_raises_witness :
  exists err,
    NamedSlotsNdarray.__getitem__ some_labeled
      (Tuple [GSlice (SStr "flux") (SInt 1) SNone; GInt 0]) = Raise err.
Proof.
  apply (@name_first_mixed_raises some_labeled (GSlice (SStr "flux") (SInt 1) SNone)
           [GInt 0]); reflexivity.
Defined.

Lemma getitem_plain_eq (self : NamedSlotsNdarray.t) (e : GIndex) (rest : list GIndex) :
  forallb plain_index (e :: rest) = true ->
  NamedSlotsNdarray.__getitem__ self (Tuple (e :: rest))
  = (obj <- nd_getitem (map np_index (e :: rest)) (NamedSlotsNdarray.data self) ;;
     match obj with
     | Item x => Ok (NamedSlotsNdarray.Scalar x)
     | _ =>
         p <- Parameters.create_sliced (NamedSlotsNdarray.parameters self)
                                       (map np_index (e :: rest)) ;;
         Ok (NamedSlotsNdarray.Array
               {| NamedSlotsNdarray.data := obj; NamedSlotsNdarray.parameters := p |})
     end).
Proof.
  intros Hplain. unfold NamedSlotsNdarray.__getitem__, enumerate.
  destruct (init_plain (NamedSlotsNdarray.parameters self) (e :: rest) 0 Hplain)
    as (gidx & -> & Hmap & Hall).
  cbn [bind]. unfold NamedSlotsNdarray._to_std_index_tuple.
  destruct gidx as [|g gidx]; [discriminate|].
  inversion Hall as [|? ? Hg Hrest]; subst.
  assert (Hty : gtype_eqb (GIndexObject.type g) T_slice_name = false)
    by (destruct (GIndexObject.type g) eqn:E; try reflexivity; congruence).
  rewrite Hty. cbn [bind]. rewrite Hmap. reflexivity.
Qed.

(** X13. Indexing with a non-empty tuple of plain integers and standard
    slices does not consult the [parameters] to form the index: the tuple
    goes to the dense array as it is; an element is returned as it is, and
    an array gets the [Parameters] that [create_sliced] makes for the same
    tuple. *)
Theorem getitem_plain (self : NamedSlotsNdarray.t) (e : GIndex) (rest : list GIndex) :
  forallb plain_index (e :: rest) = true ->
  NamedSlotsNdarray.__getitem__ self (Tuple (e :: rest))
  = (obj <- nd_getitem (map np_index (e :: rest)) (NamedSlotsNdarray.data self) ;;
     match obj with
     | Item x => Ok (NamedSlotsNdarray.Scalar x)
     | _ =>
         p <- Parameters.create_sliced (NamedSlotsNdarray.parameters self)
                                       (map np_index (e :: rest)) ;;
         Ok (NamedSlotsNdarray.Array
               {| NamedSlotsNdarray.data := obj; NamedSlotsNdarray.parameters := p |})
     end).
Proof. exact (@getitem_plain_eq self e rest). Qed.

Lemma getitem_plain_witness :
  NamedSlotsNdarray.__getitem__ square_labeled (Tuple [GInt 1; GInt 0])
  = Ok (NamedSlotsNdarray.Scalar 10%float).
Proof.
  rewrite (@getitem_plain square_labeled (GInt 1) [GInt 0]); reflexivity.
Defined.

(** ** [create_sliced] on value sets of different lengths *)

Lemma list_setitem_app {A} (pre : list A) (x c : A) (rest : list A) :
  list_setitem (pre ++ x :: rest) (List.length pre) c = Ok (pre ++ c :: rest).
Proof.
  induction pre as [|a pre IH]; simpl; [reflexivity|]. now rewrite IH.
Qed.

Lemma list_setitem_length {A} (l : list A) :
  forall i a l', list_setitem l i a = Ok l' -> List.length l' = List.length l.
Proof.
  induction l as [|x l IH]; intros [|i] a l'; simpl; try discriminate.
  - intros [= <-]. reflexivity.
  - destruct (list_setitem l i a) as [r|] eqn:Hr; simpl; [|discriminate].
    intros [= <-]. simpl. f_equal. eapply IH. eassumption.
Qed.

Lemma list_setitem_Forall {A} (P : A -> Prop) (l : list A) :
  forall i a l', Forall P l -> P a -> list_setitem l i a = Ok l' -> Forall P l'.
Proof.
  induction l as [|x l IH]; intros [|i] a l' Hall Ha; simpl; try discriminate.
  - intros [= <-]. inversion Hall; subst. now constructor.
  - destruct (list_setitem l i a) as [r|] eqn:Hr; simpl; [|discriminate].
    intros [= <-]. inversion Hall; subst. constructor; [assumption|].
    apply (IH i a r); assumption.
Qed.

Lemma paramvals_list_length (p : Parameters.t) (vals : list (list float)) :
  Parameters.paramvals_list p = Ok vals ->
  List.length vals = List.length (Parameters.paramnames_list p).
Proof.
  intros H. apply mapM_Ok in H. symmetry. eapply Forall2_length. eassumption.
Qed.

Lemma asarray_object_ragged (vals : list (list float)) :
  ragged vals = true ->
  Parameters.asarray_object vals = Parameters.Ragged (map Parameters.CArray vals).
Proof.
  destruct vals as [|v rest]; simpl; [reflexivity|].
  destruct (forallb _ rest); [discriminate|reflexivity].
Qed.

(** The slicing loop on an array of value arrays. *)
Lemma slice_loop_ragged (np_indices : NpIndexTuple) :
  forall (vals : list (list float)) (pre : list Parameters.cell),
    for_enumerate (fun arr index np_index => Parameters.slice_in_place arr index np_index)
                  (List.length pre) np_indices
                  (Parameters.Ragged (pre ++ map Parameters.CArray vals))
    = (cs <- sliced_cells vals np_indices ;; Ok (Parameters.Ragged (pre ++ cs))).
Proof.
  induction np_indices as [|ix rest IH]; intros vals pre; simpl; [reflexivity|].
  destruct vals as [|v vals]; simpl.
  - rewrite app_nil_r.
    assert (Hnone : nth_error pre (List.length pre) = None)
      by (apply nth_error_None; lia).
    now rewrite Hnone.
  - rewrite nth_error_app2, Nat.sub_diag by lia. simpl.
    destruct (Parameters.getitem_1d v ix) as [c|e]; simpl; [|reflexivity].
    rewrite list_setitem_app. simpl.
    specialize (IH vals (pre ++ [c])).
    rewrite length_app, Nat.add_1_r, <- app_assoc in IH. simpl in IH.
    rewrite IH. destruct (sliced_cells vals rest) as [cs|e]; simpl; [|reflexivity].
    now rewrite <- app_assoc.
Qed.

Lemma kept_items_keys (names : list string) :
  forall cells k, In k (dict_keys (kept_items names cells)) -> In k names.
Proof.
  induction names as [|name names IH]; intros [|c cells] k; simpl; try contradiction.
  destruct c as [x|l|l]; try (intros H; right; eapply IH; eassumption).
  destruct (Nat.ltb 1 (List.length l)); simpl.
  - intros [<-|H]; [now left | right; eapply IH; eassumption].
  - intros H. right. eapply IH. eassumption.
Qed.

Lemma kept_items_NoDup (names : list string) :
  forall cells, NoDup names -> NoDup (dict_keys (kept_items names cells)).
Proof.
  induction names as [|name names IH]; intros [|c cells] Hnd; simpl; try constructor.
  inversion Hnd as [|? ? Hnin Hnd']; subst.
  destruct c as [x|l|l]; auto.
  destruct (Nat.ltb 1 (List.length l)); simpl; auto.
  constructor; auto. intros Hin. apply Hnin. eapply kept_items_keys. eassumption.
Qed.

(** The loop over the names that keeps the arrays longer than one. *)
Lemma keep_loop_ragged (names : list string) :
  forall (cells pre : list Parameters.cell) (d : dict string (list float)),
    List.length cells = List.length names ->
    NoDup (dict_keys d ++ names) ->
    for_enumerate
      (fun d index name =>
         k <- Parameters.kept (Parameters.Ragged (pre ++ cells)) index ;;
         match k with
         | Some paramvals => Ok (dict_set d name paramvals)
         | None => Ok d
         end)
      (List.length pre) names d
    = Ok (d ++ kept_items names cells).
Proof.
  induction names as [|name names IH]; intros cells pre d Hlen Hnd; simpl.
  - now rewrite app_nil_r.
  - destruct cells as [|c cells]; [discriminate|]. simpl in Hlen.
    rewrite nth_error_app2, Nat.sub_diag by lia. simpl.
    assert (Hnin : ~ In name (dict_keys d)).
    { apply NoDup_remove_2 in Hnd. rewrite in_app_iff in Hnd. tauto. }
    assert (Hstep : forall d', NoDup (dict_keys d' ++ names) ->
              for_enumerate
                (fun d index name =>
                   k <- Parameters.kept (Parameters.Ragged (pre ++ c :: cells)) index ;;
                   match k with
                   | Some paramvals => Ok (dict_set d name paramvals)
                   | None => Ok d
                   end)
                (S (List.length pre)) names d'
              = Ok (d' ++ kept_items names cells)).
    { intros d' Hnd'. specialize (IH cells (pre ++ [c]) d').
      rewrite length_app, Nat.add_1_r, <- app_assoc in IH. simpl in IH.
      apply IH; [lia|assumption]. }
    assert (Hnd_d : NoDup (dict_keys d ++ names)) by (eapply NoDup_remove_1; eassumption).
    destruct c as [x|l|l]; simpl; try (now apply Hstep).
    destruct (Nat.ltb 1 (List.length l)); simpl; [|now apply Hstep].
    rewrite dict_set_new by assumption. rewrite Hstep.
    + now rewrite <- app_assoc.
    + unfold dict_keys in *. rewrite map_app, <- app_assoc. exact Hnd.
Qed.

Lemma sliced_cells_length (np_indices : NpIndexTuple) :
  forall vals cells,
    sliced_cells vals np_indices = Ok cells -> List.length cells = List.length vals.
Proof.
  induction np_indices as [|ix rest IH]; intros vals cells; simpl.
  - intros [= <-]. apply length_map.
  - destruct vals as [|v vals]; [discriminate|].
    destruct (Parameters.getitem_1d v ix); simpl; [|discriminate].
    destruct (sliced_cells vals rest) as [cs|] eqn:Hcs; simpl; [|discriminate].
    intros [= <-]. simpl. f_equal. now apply IH.
Qed.

(** X15. When the value sets of distinct names do not all have one length,
    [create_sliced] indexes the value set of each slot with its entry of
    the tuple, raises what that indexing raises (IndexError for a tuple
    longer than the slots), and otherwise returns the [Parameters] of
    exactly the slots left with an array of more than one value, in slot
    order, each with its sliced values. *)
Theorem create_sliced_ragged (p : Parameters.t) (vals : list (list float))
        (np_indices : NpIndexTuple) :
  Parameters.paramvals_list p = Ok vals ->
  NoDup (Parameters.paramnames_list p) ->
  ragged vals = true ->
  Parameters.create_sliced p np_indices
  = (cells <- sliced_cells vals np_indices ;;
     Parameters.__init__ (kept_items (Parameters.paramnames_list p) cells) None)
  /\ forall cells,
      sliced_cells vals np_indices = Ok cells ->
      exists p',
        Parameters.create_sliced p np_indices = Ok p'
        /\ Parameters.paramvals_by_name p'
           = kept_items (Parameters.paramnames_list p) cells
        /\ Parameters.paramnames_list p'
           = dict_keys (kept_items (Parameters.paramnames_list p) cells).
Proof.
  intros Hvals Hnd Hragged.
  assert (Heq : Parameters.create_sliced p np_indices
                = (cells <- sliced_cells vals np_indices ;;
                   Parameters.__init__
                     (kept_items (Parameters.paramnames_list p) cells) None)).
  { unfold Parameters.create_sliced. rewrite Hvals. cbn [bind].
    rewrite (asarray_object_ragged _ Hragged).
    pose proof (slice_loop_ragged np_indices vals []) as Hloop. simpl in Hloop.
    rewrite Hloop.
    destruct (sliced_cells vals np_indices) as [cells|e] eqn:Hcells; simpl;
      [|reflexivity].
    pose proof (keep_loop_ragged (Parameters.paramnames_list p) cells [] []) as Hkeep.
    simpl in Hkeep. rewrite Hkeep.
    - reflexivity.
    - rewrite (sliced_cells_length _ _ Hcells). now apply paramvals_list_length.
    - exact Hnd. }
  split; [exact Heq|].
  intros cells Hcells. rewrite Heq, Hcells. simpl.
  destruct (init_from_mapping (kept_items (Parameters.paramnames_list p) cells))
    as (p' & Hp' & Hnames & Hmap).
  exists p'. repeat split; auto. apply Hmap. now apply kept_items_NoDup.
Qed.

Lemma ng_flux_paramvals_list :
  Parameters.paramvals_list ng_flux_parameters = Ok [ng_vals; flux_vals].
Proof. reflexivity. Qed.

Lemma NoDup_ng_flux : NoDup ["ng"%string; "flux"%string].
Proof. repeat constructor; simpl; intuition discriminate. Qed.

Lemma create_sliced_ragged_witness :
  Parameters.create_sliced ng_flux_parameters [NpInt 0; NpSlice (Some 1%Z) None None]
  = (cells <- sliced_cells [ng_vals; flux_vals] [NpInt 0; NpSlice (Some 1%Z) None None] ;;
     Parameters.__init__
       (kept_items (Parameters.paramnames_list ng_flux_parameters) cells) None)
  /\ forall cells,
      sliced_cells [ng_vals; flux_vals] [NpInt 0; NpSlice (Some 1%Z) None None] = Ok cells ->
      exists p',
        Parameters.create_sliced ng_flux_parameters
                                 [NpInt 0; NpSlice (Some 1%Z) None None] = Ok p'
        /\ Parameters.paramvals_by_name p'
           = kept_items (Parameters.paramnames_list ng_flux_parameters) cells
        /\ Parameters.paramnames_list p'
           = dict_keys (kept_items (Parameters.paramnames_list ng_flux_parameters) cells).
Proof.
  apply (@create_sliced_ragged ng_flux_parameters [ng_vals; flux_vals]
           [NpInt 0; NpSlice (Some 1%Z) None None]).
  - reflexivity.
  - exact NoDup_ng_flux.
  - reflexivity.
Defined.

(** ** [create_sliced]: tuples that are too long, value sets of one length *)

Lemma slice_in_place_size (arr arr' : Parameters.object_array) (i : nat) (ix : NpIndex) :
  Parameters.slice_in_place arr i ix = Ok arr' ->
  object_array_size arr' = object_array_size arr /\ (i < object_array_size arr)%nat.
Proof.
  destruct arr as [elements|rows]; simpl.
  - destruct (nth_error elements i) as [[x|vals|vals]|] eqn:Hnth; try discriminate.
    destruct (Parameters.getitem_1d vals ix); simpl; [|discriminate].
    destruct (list_setitem elements i a) as [r|] eqn:Hr; simpl; [|discriminate].
    intros [= <-]. simpl. split; [eapply list_setitem_length; eassumption|].
    apply nth_error_Some. congruence.
  - destruct (nth_error rows i) as [row|] eqn:Hnth; [|discriminate].
    destruct (Parameters.getitem_1d row ix); simpl; [|discriminate].
    destruct (Parameters.broadcast_to_row (List.length row) a); simpl; [|discriminate].
    destruct (list_setitem rows i a0) as [r|] eqn:Hr; simpl; [|discriminate].
    intros [= <-]. simpl. split; [eapply list_setitem_length; eassumption|].
    apply nth_error_Some. congruence.
Qed.

Lemma slice_loop_too_long (np_indices : NpIndexTuple) :
  forall (i : nat) (arr : Parameters.object_array),
    (i <= object_array_size arr)%nat ->
    (object_array_size arr < i + List.length np_indices)%nat ->
    exists err,
      for_enumerate (fun arr index np_index => Parameters.slice_in_place arr index np_index)
                    i np_indices arr
      = Raise err.
Proof.
  induction np_indices as [|ix rest IH]; intros i arr Hle Hlong; simpl in *; [lia|].
  destruct (Parameters.slice_in_place arr i ix) as [arr'|e] eqn:Hstep; simpl; [|eauto].
  apply slice_in_place_size in Hstep as [Hsize Hi].
  apply IH; lia.
Qed.

Lemma asarray_object_size (vals : list (list float)) :
  object_array_size (Parameters.asarray_object vals) = List.length vals.
Proof.
  destruct vals as [|v rest]; simpl; [reflexivity|].
  destruct (forallb _ rest); simpl; [reflexivity|]. now rewrite length_map.
Qed.

(** X14. [create_sliced] never returns for a tuple with more indices than
    there are slots: it raises (IndexError, unless an earlier index raised
    before). *)
Theorem create_sliced_too_long (p : Parameters.t) (np_indices : NpIndexTuple) :
  (List.length (Parameters.paramnames_list p) < List.length np_indices)%nat ->
  exists err, Parameters.create_sliced p np_indices = Raise err.
Proof.
  intros Hlong. unfold Parameters.create_sliced.
  destruct (Parameters.paramvals_list p) as [vals|e] eqn:Hvals; simpl; [|eauto].
  destruct (@slice_loop_too_long np_indices 0 (Parameters.asarray_object vals))
    as [err Herr].
  - lia.
  - rewrite asarray_object_size, (paramvals_list_length _ Hvals). simpl. exact Hlong.
  - rewrite Herr. simpl. eauto.
Qed.

Lemma create_sliced_too_long_witness :
  exists err,
    Parameters.create_sliced ab_parameters [NpInt 0; NpInt 0; NpInt 0] = Raise err.
Proof.
  apply (@create_sliced_too_long ab_parameters [NpInt 0; NpInt 0; NpInt 0]).
  simpl. lia.
Defined.

Lemma asarray_object_matrix (vals : list (list float)) (L : nat) :
  vals <> [] -> Forall (fun v => List.length v = L) vals ->
  Parameters.asarray_object vals = Parameters.Matrix vals.
Proof.
  destruct vals as [|v rest]; [congruence|]. intros _ Hall. simpl.
  inversion Hall as [|? ? Hv Hrest]; subst.
  replace (forallb _ rest) with true; [reflexivity|].
  symmetry. apply forallb_forall. intros w Hw. apply Nat.eqb_eq.
  rewrite Forall_forall in Hrest. now apply Hrest.
Qed.

Lemma broadcast_to_row_length (L : nat) (c : Parameters.cell) (row : list float) :
  Parameters.broadcast_to_row L c = Ok row -> List.length row = L.
Proof.
  destruct c as [x|l|l]; simpl.
  - intros [= <-]. apply repeat_length.
  - destruct l as [|x [|y l]].
    + destruct (Nat.eqb_spec (List.length (@nil float)) L); [|discriminate].
      intros [= <-]. assumption.
    + intros [= <-]. apply repeat_length.
    + destruct (Nat.eqb_spec (List.length (x :: y :: l)) L); [|discriminate].
      intros [= <-]. assumption.
  - destruct (Nat.eqb_spec (List.length l) L); [|discriminate].
    intros [= <-]. assumption.
Qed.

(** The slicing loop on a two-dimensional object array keeps its shape. *)
Lemma slice_loop_matrix (L : nat) (np_indices : NpIndexTuple) :
  forall (i : nat) (rows : list (list float)) (arr : Parameters.object_array),
    Forall (fun v => List.length v = L) rows ->
    for_enumerate (fun arr index np_index => Parameters.slice_in_place arr index np_index)
                  i np_indices (Parameters.Matrix rows)
    = Ok arr ->
    exists rows',
      arr = Parameters.Matrix rows'
      /\ List.length rows' = List.length rows
      /\ Forall (fun v => List.length v = L) rows'.
Proof.
  induction np_indices as [|ix rest IH]; intros i rows arr Hall; simpl.
  - intros [= <-]. eauto.
  - destruct (nth_error rows i) as [row|] eqn:Hnth; [|discriminate].
    destruct (Parameters.getitem_1d row ix) as [c|]; simpl; [|discriminate].
    destruct (Parameters.broadcast_to_row (List.length row) c) as [row'|] eqn:Hrow;
      simpl; [|discriminate].
    destruct (list_setitem rows i row') as [rows1|] eqn:Hset; simpl; [|discriminate].
    intros Hloop.
    assert (Hlen_row : List.length row = L).
    { rewrite Forall_forall in Hall. apply Hall. eapply nth_error_In. eassumption. }
    apply broadcast_to_row_length in Hrow.
    assert (Hall1 : Forall (fun v => List.length v = L) rows1).
    { apply (@list_setitem_Forall _ (fun v => List.length v = L) rows i row' rows1);
        [assumption|congruence|assumption]. }
    destruct (IH (S i) rows1 arr Hall1 Hloop) as (rows' & -> & Hlen & Hall').
    exists rows'. repeat split; [|assumption].
    rewrite Hlen. eapply list_setitem_length. eassumption.
Qed.

Lemma keep_loop_matrix (L : nat) (names : list string) :
  forall (rows pre : list (list float)) (d : dict string (list float)),
    (2 <= L)%nat ->
    Forall (fun v => List.length v = L) rows ->
    List.length rows = List.length names ->
    NoDup (dict_keys d ++ names) ->
    for_enumerate
      (fun d index name =>
         k <- Parameters.kept (Parameters.Matrix (pre ++ rows)) index ;;
         match k with
         | Some paramvals => Ok (dict_set d name paramvals)
         | None => Ok d
         end)
      (List.length pre) names d
    = Ok (d ++ combine names rows).
Proof.
  induction names as [|name names IH]; intros rows pre d HL Hall Hlen Hnd; simpl.
  - now rewrite app_nil_r.
  - destruct rows as [|row rows]; [discriminate|]. simpl in Hlen.
    inversion Hall as [|? ? Hrow Hrows]; subst.
    rewrite nth_error_app2, Nat.sub_diag by lia. simpl.
    destruct (Nat.ltb_spec 1 (List.length row)) as [_|Hshort]; [|lia]. simpl.
    assert (Hnin : ~ In name (dict_keys d)).
    { apply NoDup_remove_2 in Hnd. rewrite in_app_iff in Hnd. tauto. }
    rewrite dict_set_new by assumption.
    specialize (IH rows (pre ++ [row]) (d ++ [(name, row)])).
    rewrite length_app, Nat.add_1_r, <- !app_assoc in IH. simpl in IH.
    apply IH; [assumption|assumption|lia|].
    unfold dict_keys in *. rewrite map_app, <- app_assoc. exact Hnd.
Qed.

(** X16. When the value sets of distinct names all have one length [L] of
    at least two, [create_sliced] drops no slot: whatever the indices are,
    if it returns, the result has the same names and each slot has [L]
    values again. *)
Theorem create_sliced_equal_lengths (p p' : Parameters.t) (vals : list (list float))
        (L : nat) (np_indices : NpIndexTuple) :
  Parameters.paramvals_list p = Ok vals ->
  NoDup (Parameters.paramnames_list p) ->
  vals <> [] ->
  Forall (fun v => List.length v = L) vals ->
  (2 <= L)%nat ->
  Parameters.create_sliced p np_indices = Ok p' ->
  Parameters.paramnames_list p' = Parameters.paramnames_list p
  /\ Forall (fun nv => List.length (snd nv) = L) (Parameters.paramvals_by_name p').
Proof.
  intros Hvals Hnd Hne Hall HL. unfold Parameters.create_sliced.
  rewrite Hvals. cbn [bind]. rewrite (asarray_object_matrix Hne Hall).
  destruct (for_enumerate _ 0 np_indices (Parameters.Matrix vals)) as [arr|] eqn:Hloop;
    simpl; [|discriminate].
  destruct (@slice_loop_matrix L np_indices 0 vals arr Hall Hloop)
    as (rows & -> & Hlen & Hrows).
  pose proof (@keep_loop_matrix L (Parameters.paramnames_list p) rows [] [] HL Hrows)
    as Hkeep.
  cbn [app List.length] in Hkeep. rewrite Hkeep;
    [|rewrite Hlen; now apply paramvals_list_length | exact Hnd].
  simpl. intros Hinit.
  assert (Hrows_len : List.length rows = List.length (Parameters.paramnames_list p))
    by (rewrite Hlen; now apply paramvals_list_length).
  assert (Hkeys : dict_keys (combine (Parameters.paramnames_list p) rows)
                  = Parameters.paramnames_list p).
  { unfold dict_keys. clear - Hrows_len. revert rows Hrows_len.
    induction (Parameters.paramnames_list p) as [|n l IH]; intros [|r rows] H;
      simpl in *; try discriminate; [reflexivity|]. f_equal. apply IH. lia. }
  destruct (init_from_mapping (combine (Parameters.paramnames_list p) rows))
    as (q & Hq & Hnames & Hmap).
  assert (q = p') by congruence. subst q.
  rewrite Hnames, Hkeys. split; [reflexivity|].
  rewrite Hmap by (rewrite Hkeys; exact Hnd).
  apply Forall_forall. intros [n v] Hin. simpl.
  apply in_combine_r in Hin. rewrite Forall_forall in Hrows. now apply Hrows.
Qed.

Lemma create_sliced_equal_lengths_witness :
  Parameters.paramnames_list ab_sliced = Parameters.paramnames_list ab_parameters
  /\ Forall (fun nv => List.length (snd nv) = 2%nat)
            (Parameters.paramvals_by_name ab_sliced).
Proof.
  apply (@create_sliced_equal_lengths ab_parameters ab_sliced
           [[1.0; 2.0]; [3.0; 4.0]]%float 2 [NpInt 0]).
  - reflexivity.
  - exact NoDup_ab.
  - discriminate.
  - repeat constructor.
  - lia.
  - vm_compute. reflexivity.
Defined.

(** ** [create_reduced]: which slots change *)

Lemma dict_get_app_last {K} `{Key K} {V} (l : dict K V) (k k' : K) (v : V) :
  dict_get (l ++ [(k, v)]) k'
  = match dict_get l k' with
    | Some w => Some w
    | None => if key_eqb k' k then Some v else None
    end.
Proof.
  induction l as [|[k0 v0] l IH]; simpl; [reflexivity|].
  destruct (key_eqb k' k0); [reflexivity|exact IH].
Qed.

(** After a run of assignments a key has the value assigned to it last,
    or the value it had. *)
Lemma assign_all_lookup {K} `{Key K} {V} (items : list (K * V)) :
  forall (d : dict K V) (k : K),
    dict_get (assign_all items d) k
    = match dict_get (rev items) k with
      | Some v => Some v
      | None => dict_get d k
      end.
Proof.
  induction items as [|[k0 v0] items IH]; intros d k; simpl; [reflexivity|].
  rewrite IH, dict_get_app_last.
  destruct (dict_get (rev items) k); [reflexivity|].
  destruct (key_eq_dec k0 k) as [->|Hne].
  - now rewrite dict_get_set_same, key_eqb_refl.
  - rewrite dict_get_set_other by assumption.
    rewrite key_eqb_neq by congruence. reflexivity.
Qed.

Lemma keys_assign_all_old {K} `{Key K} {V} (items : list (K * V)) :
  forall d : dict K V,
    (forall k, In k (map fst items) -> In k (dict_keys d)) ->
    dict_keys (assign_all items d) = dict_keys d.
Proof.
  induction items as [|[k v] items IH]; intros d Hsub; simpl; [reflexivity|].
  rewrite IH.
  - apply dict_keys_set_old. apply Hsub. now left.
  - intros k' Hk'. rewrite dict_keys_set_old by (apply Hsub; now left).
    apply Hsub. now right.
Qed.

Lemma for_enumerate_assign_le (names : list string) :
  forall (fv pre : list (list float)) (d : dict string (list float)),
    (List.length names <= List.length fv)%nat ->
    for_enumerate
      (fun d index name =>
         v <- list_getitem (pre ++ fv) (Z.of_nat index) ;; Ok (dict_set d name v))
      (List.length pre) names d
    = Ok (assign_all (combine names fv) d).
Proof.
  induction names as [|name names IH]; intros fv pre d Hlen; simpl; [reflexivity|].
  destruct fv as [|v fv]; simpl in Hlen; [lia|].
  rewrite list_getitem_nat, nth_error_app2, Nat.sub_diag by lia. simpl.
  specialize (IH fv (pre ++ [v]) (dict_set d name v)).
  rewrite <- app_assoc, length_app in IH. simpl in IH.
  rewrite Nat.add_1_r in IH. apply IH. lia.
Qed.

Lemma In_fst_combine {A B} (l1 : list A) (l2 : list B) (a : A) :
  In a (map fst (combine l1 l2)) -> In a l1.
Proof.
  rewrite in_map_iff. intros [[x y] [<- Hin]]. eapply in_combine_l. eassumption.
Qed.

(** X17. With fixed values supplied for listed slots, [create_reduced]
    returns [Parameters] with the same names in the same order, in which
    each listed slot has the value supplied for it (the last one, when a
    name is listed twice) and every other slot its own values. *)
Theorem create_reduced_fixed_values (self : Parameters.t) (fixed : list string)
        (fixed_values : list (list float)) :
  NoDup (Parameters.paramnames_list self) ->
  Parameters.paramnames_list self = dict_keys (Parameters.paramvals_by_name self) ->
  (List.length fixed <= List.length fixed_values)%nat ->
  (forall name, In name fixed -> In name (Parameters.paramnames_list self)) ->
  exists p',
    Parameters.create_reduced self fixed (Some fixed_values) = Ok p'
    /\ Parameters.paramnames_list p' = Parameters.paramnames_list self
    /\ forall name,
        dict_get (Parameters.paramvals_by_name p') name
        = match dict_get (rev (combine fixed fixed_values)) name with
          | Some v => Some v
          | None => dict_get (Parameters.paramvals_by_name self) name
          end.
Proof.
  intros Hnd Hkeys Hlen Hsub.
  set (d := Parameters.paramvals_by_name self) in *.
  assert (Hnd_d : NoDup (dict_keys d)) by now rewrite <- Hkeys.
  unfold Parameters.create_reduced. cbn [bind].
  unfold Parameters.getitem_str. fold d. rewrite Hkeys.
  rewrite init_items_of_dict by (intros k v Hin; now apply dict_get_NoDup_In).
  cbn [bind]. rewrite dict_of_items_NoDup by assumption.
  pose proof (for_enumerate_assign_le fixed fixed_values [] d Hlen) as Hloop.
  cbn [app List.length] in Hloop. rewrite Hloop. cbn [bind].
  set (d1 := assign_all (combine fixed fixed_values) d).
  assert (Hkeys1 : dict_keys d1 = dict_keys d).
  { apply keys_assign_all_old. intros k Hk. rewrite <- Hkeys.
    apply Hsub. eapply In_fst_combine. eassumption. }
  destruct (init_from_mapping d1) as (p' & Hp' & Hnames & Hmap).
  exists p'. split; [assumption|]. split; [now rewrite Hnames, Hkeys1|].
  intros name. rewrite Hmap by now rewrite Hkeys1.
  apply assign_all_lookup.
Qed.

Lemma create_reduced_fixed_values_witness :
  exists p',
    Parameters.create_reduced ab_parameters ["b"%string] (Some [[7.0%float]]) = Ok p'
    /\ Parameters.paramnames_list p' = Parameters.paramnames_list ab_parameters
    /\ forall name,
        dict_get (Parameters.paramvals_by_name p') name
        = match dict_get (rev (combine ["b"%string] [[7.0%float]])) name with
          | Some v => Some v
          | None => dict_get (Parameters.paramvals_by_name ab_parameters) name
          end.
Proof.
  apply (@create_reduced_fixed_values ab_parameters ["b"%string] [[7.0%float]]).
  - exact NoDup_ab.
  - reflexivity.
  - simpl. lia.
  - simpl. intros name [<-|[]]. auto.
Defined.

(** X18. Without supplied values, a [create_reduced] that returns keeps the
    names and their order, and leaves every slot that is not listed with
    its own values. *)
Theorem create_reduced_keeps_slots (self : Parameters.t) (fixed : list string)
        (p' : Parameters.t) :
  NoDup (Parameters.paramnames_list self) ->
  Parameters.paramnames_list self = dict_keys (Parameters.paramvals_by_name self) ->
  Parameters.create_reduced self fixed None = Ok p' ->
  Parameters.paramnames_list p' = Parameters.paramnames_list self
  /\ forall name, ~ In name fixed ->
       Parameters.getitem_str p' name = Parameters.getitem_str self name.
Proof.
  intros Hnd Hkeys Hred.
  destruct (create_reduced_inv _ _ Hred) as (fv & items & Hfv & Hitems & Hinit).
  set (d := Parameters.paramvals_by_name self) in *.
  assert (Hnd_d : NoDup (dict_keys d)) by now rewrite <- Hkeys.
  unfold Parameters.getitem_str in Hitems. fold d in Hitems. rewrite Hkeys in Hitems.
  rewrite init_items_of_dict in Hitems
    by (intros k v Hin; now apply dict_get_NoDup_In).
  injection Hitems as <-. rewrite dict_of_items_NoDup in Hinit by assumption.
  set (d1 := assign_all (combine fixed fv) d) in *.
  assert (Hsub : forall name, In name fixed -> In name (dict_keys d)).
  { intros name Hin. apply mapM_Ok in Hfv.
    destruct (Forall2_In_l _ Hfv Hin) as [v Hv].
    pose proof (Forall2_combine_In _ _ Hfv Hv) as Hfirst. unfold first_value in Hfirst.
    unfold Parameters.getitem_str, dict_getitem in Hfirst. fold d in Hfirst.
    destruct (dict_get d name) eqn:Hget; simpl in Hfirst; [|discriminate].
    eapply dict_get_Some_In. eassumption. }
  assert (Hkeys1 : dict_keys d1 = dict_keys d).
  { apply keys_assign_all_old. intros k Hk. apply Hsub.
    eapply In_fst_combine. eassumption. }
  destruct (init_from_mapping d1) as (q & Hq & Hnames & Hmap).
  assert (q = p') by congruence. subst q.
  split; [now rewrite Hnames, Hkeys1|].
  intros name Hnin. unfold Parameters.getitem_str, dict_getitem.
  rewrite Hmap by now rewrite Hkeys1.
  unfold d1. rewrite assign_all_lookup.
  rewrite dict_get_None; [reflexivity|].
  intros Hin. apply Hnin. unfold dict_keys in Hin. rewrite map_rev in Hin.
  apply in_rev in Hin. eapply In_fst_combine. eassumption.
Qed.

Lemma create_reduced_keeps_slots_witness :
  Parameters.paramnames_list ab_reduced = Parameters.paramnames_list ab_parameters
  /\ forall name, ~ In name ["a"%string] ->
       Parameters.getitem_str ab_reduced name = Parameters.getitem_str ab_parameters name.
Proof.
  apply (@create_reduced_keeps_slots ab_parameters ["a"%string] ab_reduced).
  - exact NoDup_ab.
  - reflexivity.
  - vm_compute. reflexivity.
Defined.

Lemma bind_raises_first {A B} (r : result A) (k : A -> result B) :
  (exists err, r = Raise err) -> exists err, bind r k = Raise err.
Proof. intros [err ->]. simpl. eauto. Qed.

Lemma mapM_raises {A B} (f : A -> result B) (l : list A) (a : A) :
  In a l -> (exists err, f a = Raise err) -> exists err, mapM f l = Raise err.
Proof.
  induction l as [|x l IH]; simpl; [contradiction|].
  intros [->|Hin] Hraise.
  - destruct Hraise as [err ->]. simpl. eauto.
  - destruct (f x); simpl; [|eauto].
    destruct (IH Hin Hraise) as [err ->]. simpl. eauto.
Qed.

(** X19. Without supplied values, [create_reduced] never returns when a
    listed name is no slot or names a slot without values: it raises
    (KeyError, IndexError). *)
Theorem create_reduced_needs_first_value (self : Parameters.t) (fixed : list string)
        (name : string) :
  In name fixed ->
  match dict_get (Parameters.paramvals_by_name self) name with
  | Some (_ :: _) => False
  | _ => True
  end ->
  exists err, Parameters.create_reduced self fixed None = Raise err.
Proof.
  intros Hin Hbad. unfold Parameters.create_reduced.
  apply bind_raises_first. apply (mapM_raises _ _ name Hin).
  unfold Parameters.getitem_str, dict_getitem.
  destruct (dict_get (Parameters.paramvals_by_name self) name) as [[|x vals]|];
    simpl; [eauto|contradiction|eauto].
Qed.

Lemma create_reduced_needs_first_value_witness :
  exists err, Parameters.create_reduced ab_parameters ["c"%string] None = Raise err.
Proof.
  apply (@create_reduced_needs_first_value ab_parameters ["c"%string] "c"%string).
  - now left.
  - exact I.
Defined.

(** ** [Parameters.__getitem__] with a tuple or a slice *)

(** X20. Indexing [Parameters] with a tuple needs an entry for every slot:
    with fewer entries than slots it never returns (IndexError at the
    first slot without an entry, unless an earlier slot raised). *)
Theorem getitem_tuple_short (self : Parameters.t) (key : NpIndexTuple) :
  (List.length key < Parameters.__len__ self)%nat ->
  exists err, Parameters.getitem_tuple self key = Raise err.
Proof.
  intros Hshort. unfold Parameters.getitem_tuple.
  apply (@mapM_raises _ _ _ _ (List.length key)).
  - apply in_seq. lia.
  - apply bind_raises. intros name. apply bind_raises. intros vals.
    rewrite list_getitem_nat.
    assert (Hnone : nth_error key (List.length key) = None)
      by (apply nth_error_None; lia).
    rewrite Hnone. simpl. eauto.
Qed.

Lemma getitem_tuple_short_witness :
  exists err, Parameters.getitem_tuple ab_parameters [NpInt 0] = Raise err.
Proof.
  apply (@getitem_tuple_short ab_parameters [NpInt 0]). vm_compute. lia.
Defined.

Lemma take_stepped_one {A} (l : list A) :
  forall (k : nat),
    take_stepped l (Z.of_nat k) 1 (List.length l - k) = skipn k l.
Proof.
  intros k. remember (List.length l - k)%nat as m eqn:Hm.
  revert k Hm. induction m as [|m IH]; intros k Hm; simpl.
  - symmetry. apply skipn_all2. lia.
  - rewrite Nat2Z.id.
    destruct (nth_error l k) as [a|] eqn:Hk.
    + replace (Z.of_nat k + 1)%Z with (Z.of_nat (S k)) by lia.
      rewrite (IH (S k)) by lia.
      clear - Hk. revert k Hk. induction l as [|x l IHl]; intros [|k] Hk; simpl in *;
        try discriminate.
      * now injection Hk as ->.
      * now apply IHl.
    + apply nth_error_None in Hk. lia.
Qed.

Lemma list_getslice_full {A} (l : list A) : list_getslice l None None None = Ok l.
Proof.
  unfold list_getslice, slice_adjust. simpl.
  destruct (Z.ltb_spec 0 (Z.of_nat (List.length l))) as [Hpos|Hzero]; simpl.
  - rewrite Z.sub_0_r, Z.div_1_r.
    replace (Z.to_nat (Z.of_nat (List.length l) - 1 + 1)) with (List.length l - 0)%nat
      by lia.
    f_equal. apply (take_stepped_one l 0).
  - destruct l; [reflexivity|simpl in Hzero; lia].
Qed.

(** X21. [parameters[:]] is the list of all value sets in slot order, the
    same as the property [paramvals_list]. *)
Theorem getitem_slice_full (self : Parameters.t) :
  Parameters.getitem_slice self None None None = Parameters.paramvals_list self.
Proof.
  unfold Parameters.getitem_slice, Parameters.paramvals_list.
  now rewrite list_getslice_full.
Qed.

(** ** Name-based indexing is positional indexing of the named slots *)

Lemma init_named (e e' : GIndex) (p : Parameters.t) (slot : nat) :
  positional_form e = Some e' ->
  exists g,
    GIndexObject.__init__ e p slot = Ok g
    /\ GIndexObject.type g = T_slice_name
    /\ GIndexObject.name g = entry_name e
    /\ GIndexObject.std_index g = np_index e'.
Proof.
  destruct e as [i|x|start stop step|t|re im]; try discriminate.
  destruct start as [| | |name|]; try discriminate.
  destruct stop as [|i| | |], step as [|j| | |]; try discriminate;
    intros [= <-]; eexists; (split; [reflexivity|]); auto.
Qed.

Lemma init_named_all (p : Parameters.t) (entries : list GIndex) :
  Forall (fun e => positional_form e <> None) entries ->
  forall i,
  exists gidx,
    mapM (fun se => GIndexObject.__init__ (snd se) p (fst se)) (enumerate_from i entries)
    = Ok gidx
    /\ Forall2 (fun e g =>
                  GIndexObject.type g = T_slice_name
                  /\ GIndexObject.name g = entry_name e
                  /\ exists e', positional_form e = Some e'
                                /\ GIndexObject.std_index g = np_index e')
               entries gidx.
Proof.
  induction 1 as [|e entries He _ IH]; intros i; simpl.
  - exists []. split; [reflexivity|constructor].
  - destruct (positional_form e) as [e'|] eqn:Hform; [|congruence].
    destruct (init_named e p i Hform) as (g & -> & Hty & Hname & Hidx).
    destruct (IH (S i)) as (gidx & -> & Hall). simpl.
    eexists. split; [reflexivity|]. constructor; eauto.
Qed.

Lemma find_Forall2 {A B} (R : A -> B -> Prop) (fa : A -> bool) (fb : B -> bool)
      (l1 : list A) (l2 : list B) :
  Forall2 R l1 l2 ->
  (forall a b, R a b -> fa a = fb b) ->
  match find fa l1, find fb l2 with
  | Some a, Some b => R a b
  | None, None => True
  | _, _ => False
  end.
Proof.
  intros Hall Hf. induction Hall as [|a b l1 l2 Hab _ IH]; simpl; [exact I|].
  rewrite (Hf a b Hab). destruct (fb b); [assumption|exact IH].
Qed.

Lemma Forall2_rev {A B} (R : A -> B -> Prop) (l1 : list A) (l2 : list B) :
  Forall2 R l1 l2 -> Forall2 R (rev l1) (rev l2).
Proof.
  induction 1 as [|a b l1 l2 Hab _ IH]; simpl; [constructor|].
  apply Forall2_app; [assumption|]. constructor; [assumption|constructor].
Qed.

Lemma positional_entry_plain (ibn : dict string nat) (entries : list GIndex) (k : nat) :
  plain_index (positional_entry ibn entries k) = true.
Proof.
  unfold positional_entry.
  destruct (find _ (rev entries)) as [e|]; [|reflexivity].
  destruct e as [i|x|start stop step|t|re im]; try reflexivity.
  destruct start; try reflexivity.
  destruct stop, step; reflexivity.
Qed.

(** X22. A multi-index of name-based entries with int bounds, each naming
    an existing slot, selects what the positional multi-index selects that
    has, at the position of each named slot, the bounds given with its
    name, and the full slice at every other slot: the entries may come in
    any order, and the result (data and [Parameters], or the exception) is
    the same. *)
Theorem name_based_is_positional (self : NamedSlotsNdarray.t) (e : GIndex)
        (rest : list GIndex) :
  let index_by_name := Parameters.index_by_name (NamedSlotsNdarray.parameters self) in
  Forall (fun e =>
            positional_form e <> None
            /\ exists name j,
                entry_name e = Some name
                /\ dict_get index_by_name name = Some j
                /\ (j < NamedSlotsNdarray.slot_count self)%nat)
         (e :: rest) ->
  NamedSlotsNdarray.__getitem__ self (Tuple (e :: rest))
  = NamedSlotsNdarray.__getitem__ self
      (Tuple (positional_tuple index_by_name (e :: rest)
                               (NamedSlotsNdarray.slot_count self))).
Proof.
  intros ibn Hall. set (entries := e :: rest) in *.
  set (n := NamedSlotsNdarray.slot_count self).
  assert (Hn : (0 < n)%nat).
  { inversion Hall as [|? ? (_ & name & j & _ & _ & Hj) _]. subst n. lia. }
  (* the positional side *)
  assert (Hpos : exists e0 rest0, positional_tuple ibn entries n = e0 :: rest0).
  { unfold positional_tuple. destruct n as [|n']; [lia|]. simpl. eauto. }
  destruct Hpos as (e0 & rest0 & Hpos). rewrite Hpos.
  rewrite getitem_plain_eq.
  2: { rewrite <- Hpos. unfold positional_tuple. apply forallb_forall.
       intros x Hx. apply in_map_iff in Hx as (k & <- & _).
       apply positional_entry_plain. }
  rewrite <- Hpos.
  (* the name-based side *)
  assert (Hforms : Forall (fun e => positional_form e <> None) entries)
    by (eapply Forall_impl; [|exact Hall]; simpl; tauto).
  destruct (init_named_all (NamedSlotsNdarray.parameters self) Hforms 0)
    as (gidx & Hgidx & Hrel).
  unfold NamedSlotsNdarray.__getitem__ at 1, enumerate. fold entries.
  rewrite Hgidx. cbn [bind].
  assert (Hconv : NamedSlotsNdarray._to_std_index_tuple self gidx
                  = Ok (map np_index (positional_tuple ibn entries n))).
  { unfold NamedSlotsNdarray._to_std_index_tuple.
    destruct gidx as [|g gs]; [inversion Hrel|].
    assert (Hg : GIndexObject.type g = T_slice_name)
      by (inversion Hrel as [|? ? ? ? (H & _) _]; exact H).
    rewrite Hg. simpl gtype_eqb. cbv iota.
    rewrite name_based_conversion_eq.
    - fold ibn. fold n. f_equal. unfold positional_tuple. rewrite map_map.
      apply map_ext. intros k. unfold named_index, positional_entry.
      pose proof (@find_Forall2 _ _
                    (fun e g =>
                       GIndexObject.type g = T_slice_name
                       /\ GIndexObject.name g = entry_name e
                       /\ exists e', positional_form e = Some e'
                                     /\ GIndexObject.std_index g = np_index e')
                    (entry_names_slot ibn k) (names_slot ibn k)
                    (rev entries) (rev (g :: gs)) (Forall2_rev Hrel)) as Hfind.
      destruct (find (entry_names_slot ibn k) (rev entries)) as [e1|],
               (find (names_slot ibn k) (rev (g :: gs))) as [g1|];
        try (exfalso; apply Hfind;
             intros a b (_ & Hname & _); unfold entry_names_slot, names_slot;
             now rewrite Hname).
      + destruct Hfind as (_ & _ & e' & -> & ->); [|reflexivity].
        intros a b (_ & Hname & _). unfold entry_names_slot, names_slot.
        now rewrite Hname.
      + reflexivity.
    - fold ibn. clear - Hrel Hall. induction Hrel as [|a b l1 l2 Hab _ IH];
        [constructor|].
      inversion Hall as [|? ? (_ & name & j & Hname & Hj & Hlt) Hall']; subst.
      destruct Hab as (Hty & Hn & _).
      constructor; [|now apply IH].
      split; [assumption|]. exists name, j. rewrite Hn. auto. }
  rewrite Hconv. reflexivity.
Qed.

(** [some_array['flux'::2, 'ng':-1]] is [some_array[-1, :2]]. *)
Lemma name_based_is_positional_witness :
  NamedSlotsNdarray.__getitem__ some_labeled
    (Tuple [GSlice (SStr "flux") SNone (SInt 2); GSlice (SStr "ng") (SInt (-1)) SNone])
  = NamedSlotsNdarray.__getitem__ some_labeled
      (Tuple [GInt (-1); GSlice SNone (SInt 2) SNone]).
Proof.
  apply (@name_based_is_positional some_labeled
           (GSlice (SStr "flux") SNone (SInt 2))
           [GSlice (SStr "ng") (SInt (-1)) SNone]).
  repeat constructor; simpl; try discriminate.
  - exists "flux"%string, 1%nat. repeat split. vm_compute. lia.
  - exists "ng"%string, 0%nat. repeat split. vm_compute. lia.
Defined.
